(** * vtkWarpTransform: Newton inversion of a forward-only warp transform

    A shallow embedding of [contrib/vtkWarpTransform.cxx].  The class inverts
    a smooth 3-D transform, known only through its forward evaluation and its
    Jacobian, with a damped Newton iteration.

    The embedding is generic in the arithmetic: [Scalar D] carries the
    operations the C++ code applies to a [double].  Two instances are given,
    IEEE-754 binary64 (the arithmetic the compiled code runs on) and the
    canonical rationals [Qc] (the exact arithmetic its comments reason in). *)

From Stdlib Require Import ZArith NArith List Bool Lia.
From Stdlib Require Import QArith Qcanon Ring.
From Stdlib Require Import SpecFloat.
Import ListNotations.
Local Open Scope Z_scope.

(* ================================================================== *)
(** ** Scalars, points and matrices *)

(** The operations of the source on [double] values: [+ - * /], the
    comparison [<] ([a > b] is [b < a]) and the four literals that occur
    ([2], [0.1], [0.5] and the default tolerance [0.001]). *)
Class Scalar (D : Type) : Type := {
  sadd : D -> D -> D;
  ssub : D -> D -> D;
  smul : D -> D -> D;
  sdiv : D -> D -> D;
  sltb : D -> D -> bool;
  lit_2 : D;
  lit_0_1 : D;
  lit_0_5 : D;
  lit_0_001 : D
}.

Declare Scope scalar_scope.
Delimit Scope scalar_scope with S.
Infix "+" := sadd : scalar_scope.
Infix "-" := ssub : scalar_scope.
Infix "*" := smul : scalar_scope.
Infix "/" := sdiv : scalar_scope.
Notation "a <? b" := (sltb a b) : scalar_scope.
Notation "a >? b" := (sltb b a) : scalar_scope.

(** [double p[3]] and [float p[3]]. *)
Record Vec3 (D : Type) : Type := mkVec3 { c0 : D; c1 : D; c2 : D }.
Arguments mkVec3 {D} _ _ _.
Arguments c0 {D} _.
Arguments c1 {D} _.
Arguments c2 {D} _.

(** [double m[3][3]], row major: [m[i][j]] is component [j] of row [i]. *)
Definition Mat3 (D : Type) : Type := Vec3 (Vec3 D).

Definition vmap {A B : Type} (f : A -> B) (v : Vec3 A) : Vec3 B :=
  mkVec3 (f (c0 v)) (f (c1 v)) (f (c2 v)).

(** The two floating-point widths: [float] values [F], [double] values [D],
    with the C++ implicit conversions between them. *)
Class Precision (F D : Type) : Type := {
  to_double : F -> D;
  to_float : D -> F
}.

(** The pure virtual methods a concrete warp supplies, one overload per
    precision.  [ForwardTransformDerivative] returns the transformed point
    together with the Jacobian at the input. *)
Class WarpForward (F D : Type) : Type := {
  ForwardTransformPoint : Vec3 D -> Vec3 D;
  ForwardTransformDerivative : Vec3 D -> Vec3 D * Mat3 D;
  ForwardTransformPoint_float : Vec3 F -> Vec3 F;
  ForwardTransformDerivative_float : Vec3 F -> Vec3 F * Mat3 F
}.

(** The static helpers of [vtkMath] the file calls; their code is not part
    of this file, so they are parameters of the model. *)
Class vtkMath (F D : Type) : Type := {
  LinearSolve3x3 : Mat3 D -> Vec3 D -> Vec3 D;
  Invert3x3 : Mat3 D -> Mat3 D;
  Invert3x3_float : Mat3 F -> Mat3 F
}.

(* ================================================================== *)
(** ** The object and the world it runs in *)

(** The data members.  [InverseFlag] and [InverseIterations] are C [int]s.
    [MTime] stands for the modification time kept by the base class. *)
Record vtkWarpTransform (D : Type) : Type := mkWarp {
  InverseFlag : Z;
  InverseTolerance : D;
  InverseIterations : Z;
  MTime : N
}.
Arguments mkWarp {D} _ _ _ _.
Arguments InverseFlag {D} _.
Arguments InverseTolerance {D} _.
Arguments InverseIterations {D} _.
Arguments MTime {D} _.

(** What a call leaves behind besides its results: the calls made to the
    forward evaluator and the diagnostics handed to [vtkWarningMacro] and
    [vtkDebugMacro] (whether these display them depends on flags kept
    outside this file).  [EvWarning p e2 i] stands for the text
    "InverseTransformPoint: no convergence (p) error = sqrt(e2) after i
    iterations."; [EvDebug k] for "Inverse Iterations: k". *)
Inductive Event (F D : Type) : Type :=
| EvForwardPoint (p : Vec3 D)
| EvForwardDerivative (p : Vec3 D)
| EvForwardPoint_float (p : Vec3 F)
| EvForwardDerivative_float (p : Vec3 F)
| EvDebug (k : Z)
| EvWarning (p : Vec3 D) (e2 : D) (i : Z).
Arguments EvForwardPoint {F D} _.
Arguments EvForwardDerivative {F D} _.
Arguments EvForwardPoint_float {F D} _.
Arguments EvForwardDerivative_float {F D} _.
Arguments EvDebug {F D} _.
Arguments EvWarning {F D} _ _ _.

Record World (F D : Type) : Type := mkWorld {
  self : vtkWarpTransform D;
  log : list (Event F D)
}.
Arguments mkWorld {F D} _ _.
Arguments self {F D} _.
Arguments log {F D} _.

(** A world with the object [t] and nothing logged yet. *)
Definition fresh {F D : Type} (t : vtkWarpTransform D) : World F D :=
  mkWorld t [].

(** Methods are state transformers over the world. *)
Definition M (F D A : Type) : Type := World F D -> A * World F D.

Definition ret {F D A : Type} (a : A) : M F D A := fun w => (a, w).

Definition bind {F D A B : Type} (m : M F D A) (k : A -> M F D B) : M F D B :=
  fun w => let (a, w') := m w in k a w'.

Declare Scope warp_scope.
Delimit Scope warp_scope with warp.
Notation "x <- c ;; k" := (bind c (fun x => k))
  (at level 61, c at next level, right associativity) : warp_scope.
Notation "c ;; k" := (bind c (fun _ => k))
  (at level 61, right associativity) : warp_scope.

Definition emit {F D : Type} (e : Event F D) : M F D unit :=
  fun w => (tt, mkWorld (self w) (log w ++ [e])).

(** Reading a data member through [this]. *)
Definition member {F D A : Type} (field : vtkWarpTransform D -> A) : M F D A :=
  fun w => (field (self w), w).

(** The state between two Newton iterations: the candidate [inverse], its
    residual [deltaP], the Jacobian [derivative] at the candidate and the
    squared length [errorSquared] of the residual. *)
Record IterState (D : Type) : Type := mkIter {
  inverse : Vec3 D;
  deltaP : Vec3 D;
  derivative : Mat3 D;
  errorSquared : D
}.
Arguments mkIter {D} _ _ _ _.
Arguments inverse {D} _.
Arguments deltaP {D} _.
Arguments derivative {D} _.
Arguments errorSquared {D} _.

(** C's [!x] on an [int]. *)
Definition lognot (x : Z) : Z := if x =? 0 then 1 else 0.

(** The two modes the flag encodes. *)
Inductive TransformMode : Type := Forward | InverseMode.

Definition mode {D : Type} (t : vtkWarpTransform D) : TransformMode :=
  if InverseFlag t =? 0 then Forward else InverseMode.

Definition other_mode (m : TransformMode) : TransformMode :=
  match m with Forward => InverseMode | InverseMode => Forward end.

(* ================================================================== *)
(** ** The methods of [vtkWarpTransform.cxx] *)

Section Methods.
Context {F D : Type} {sc : Scalar D} {pr : Precision F D}
        {fw : WarpForward F D} {vm : vtkMath F D}.
Local Open Scope warp_scope.

(** The constructor. *)
Definition vtkWarpTransform_new : vtkWarpTransform D :=
  mkWarp 0 lit_0_001 500 0%N.

(** Calls to the virtual forward evaluator, recorded in the log. *)
Definition call_ForwardTransformPoint (p : Vec3 D) : M F D (Vec3 D) :=
  emit (EvForwardPoint p) ;; ret (ForwardTransformPoint p).

Definition call_ForwardTransformDerivative (p : Vec3 D)
  : M F D (Vec3 D * Mat3 D) :=
  emit (EvForwardDerivative p) ;; ret (ForwardTransformDerivative p).

Definition call_ForwardTransformPoint_float (p : Vec3 F) : M F D (Vec3 F) :=
  emit (EvForwardPoint_float p) ;; ret (ForwardTransformPoint_float p).

Definition call_ForwardTransformDerivative_float (p : Vec3 F)
  : M F D (Vec3 F * Mat3 F) :=
  emit (EvForwardDerivative_float p) ;; ret (ForwardTransformDerivative_float p).

(** "first guess at inverse point": [inverse[k] -= 2*(inverse[k]-point[k])]
    applied to [inverse = Forward(point)]. *)
Definition first_guess (point fwd : Vec3 D) : Vec3 D :=
  mkVec3 (c0 fwd - lit_2 * (c0 fwd - c0 point))%S
         (c1 fwd - lit_2 * (c1 fwd - c1 point))%S
         (c2 fwd - lit_2 * (c2 fwd - c2 point))%S.

(** "add errors for each dimension". *)
Definition sum_squares (d : Vec3 D) : D :=
  (c0 d * c0 d + c1 d * c1 d + c2 d * c2 d)%S.

(** "how far off are we?": [deltaP[k] -= point[k]]. *)
Definition vsub (a b : Vec3 D) : Vec3 D :=
  mkVec3 (c0 a - c0 b)%S (c1 a - c1 b)%S (c2 a - c2 b)%S.

(** The locals after a candidate went through [ForwardTransformDerivative],
    whose outputs are [r]: the residual, the Jacobian and the squared
    error. *)
Definition candidate_state (point candidate : Vec3 D) (r : Vec3 D * Mat3 D)
  : IterState D :=
  let deltaP := vsub (fst r) point in
  mkIter candidate deltaP (snd r) (sum_squares deltaP).

(** The block the source repeats three times: "put the inverse point back
    through the transform", "how far off are we?", "add errors for each
    dimension". *)
Definition evaluate_candidate (point candidate : Vec3 D) : M F D (IterState D) :=
  r <- call_ForwardTransformDerivative candidate ;;
  ret (candidate_state point candidate r).

(** [lastErrorSquaredD]: "derivative of errorSquared for lastError", from
    [gradient[k] = deltaP[k]*derivative[k][k]*2]. *)
Definition error_slope (s : IterState D) (deltaI : Vec3 D) : D :=
  let gradient := mkVec3 (c0 (deltaP s) * c0 (c0 (derivative s)) * lit_2)%S
                         (c1 (deltaP s) * c1 (c1 (derivative s)) * lit_2)%S
                         (c2 (deltaP s) * c2 (c2 (derivative s)) * lit_2)%S in
  (c0 gradient * c0 deltaI + c1 gradient * c1 deltaI + c2 gradient * c2 deltaI)%S.

(** "quadratic approximation to find best fractional distance", before the
    two [if]s that bound it. *)
Definition raw_fraction (errorSquared lastErrorSquared lastErrorSquaredD : D) : D :=
  (lastErrorSquaredD /
   (lit_2 * (errorSquared - lastErrorSquared - lastErrorSquaredD)))%S.

(** [if (f < 0.1) f = 0.1; if (f > 0.5) f = 0.5;] *)
Definition clamp_fraction (f : D) : D :=
  let f := if (f <? lit_0_1)%S then lit_0_1 else f in
  if (f >? lit_0_5)%S then lit_0_5 else f.

(** "calculate inverse using fractional distance". *)
Definition fractional_step (lastInverse deltaI : Vec3 D) (f : D) : Vec3 D :=
  mkVec3 (c0 lastInverse - f * c0 deltaI)%S
         (c1 lastInverse - f * c1 deltaI)%S
         (c2 lastInverse - f * c2 deltaI)%S.

(** "calculate the new inverse": the full Newton step. *)
Definition full_step (lastInverse deltaI : Vec3 D) : Vec3 D :=
  mkVec3 (c0 lastInverse - c0 deltaI)%S
         (c1 lastInverse - c1 deltaI)%S
         (c2 lastInverse - c2 deltaI)%S.

(** The candidate the backtracking branch moves to, given the error
    [errorSquared] the full step produced. *)
Definition backtrack_candidate (s : IterState D) (deltaI : Vec3 D)
  (errorSquared1 : D) : Vec3 D :=
  let lastErrorSquared := errorSquared s in
  let lastErrorSquaredD := error_slope s deltaI in
  let f := clamp_fraction
             (raw_fraction errorSquared1 lastErrorSquared lastErrorSquaredD) in
  fractional_step (inverse s) deltaI f.

(** One pass through the body of the [for] loop. *)
Definition newton_iteration (point : Vec3 D) (s : IterState D)
  : M F D (IterState D) :=
  let lastErrorSquared := errorSquared s in
  let deltaI := LinearSolve3x3 (derivative s) (deltaP s) in
  let lastInverse := inverse s in
  s1 <- evaluate_candidate point (full_step lastInverse deltaI) ;;
  if (errorSquared s1 >? lastErrorSquared)%S then
    evaluate_candidate point (backtrack_candidate s deltaI (errorSquared s1))
  else ret s1.

(** [for (i = 0; i < n && errorSquared > toleranceSquared; i++)].  The loop
    runs at most [n] times, so [fuel = Z.to_nat n] is always enough (lemma
    [newton_loop_fuel] below). *)
Fixpoint newton_loop (fuel : nat) (n : Z) (toleranceSquared : D)
  (point : Vec3 D) (i : Z) (s : IterState D) : M F D (Z * IterState D) :=
  match fuel with
  | O => ret (i, s)
  | S fuel' =>
      if (i <? n) && (errorSquared s >? toleranceSquared)%S then
        s' <- newton_iteration point s ;;
        newton_loop fuel' n toleranceSquared point (i + 1) s'
      else ret (i, s)
  end.

(** Lines 148-255: seed, first residual and the loop.  Returns the final
    loop counter [i] and the final locals. *)
Definition InverseTransformPoint_solve (point : Vec3 D)
  : M F D (Z * IterState D) :=
  tol <- member InverseTolerance ;;
  let toleranceSquared := (tol * tol)%S in
  fwd <- call_ForwardTransformPoint point ;;
  s0 <- evaluate_candidate point (first_guess point fwd) ;;
  n <- member InverseIterations ;;
  newton_loop (Z.to_nat n) n toleranceSquared point 0 s0.

(** [InverseTransformPoint(const double point[3], double output[3])].
    [output] is written before the warning reads [point]; [in_place] tells
    whether the caller passed the same array for both, in which case the
    warning prints the result instead of the input. *)
Definition InverseTransformPoint (in_place : bool) (point : Vec3 D)
  : M F D (Vec3 D) :=
  r <- InverseTransformPoint_solve point ;;
  let i := fst r in
  let output := inverse (snd r) in
  emit (EvDebug (i + 1)) ;;
  n <- member InverseIterations ;;
  (if i >=? n
   then emit (EvWarning (if in_place then output else point)
                        (errorSquared (snd r)) i)
   else ret tt) ;;
  ret output.

(** [InverseTransformPoint(const float point[3], float output[3])]:
    "convert float to double and back again", calling the [double] version
    in place on the local [dpoint]. *)
Definition InverseTransformPoint_float (point : Vec3 F) : M F D (Vec3 F) :=
  let dpoint := vmap to_double point in
  dpoint <- InverseTransformPoint true dpoint ;;
  ret (vmap to_float dpoint).

(** [InternalTransformPoint(const double input[3], double output[3])]. *)
Definition InternalTransformPoint (in_place : bool) (input : Vec3 D)
  : M F D (Vec3 D) :=
  flag <- member InverseFlag ;;
  if negb (flag =? 0) then InverseTransformPoint in_place input
  else call_ForwardTransformPoint input.

(** [InternalTransformPoint(const float input[3], float output[3])]. *)
Definition InternalTransformPoint_float (input : Vec3 F) : M F D (Vec3 F) :=
  flag <- member InverseFlag ;;
  if negb (flag =? 0) then InverseTransformPoint_float input
  else call_ForwardTransformPoint_float input.

(** [InternalTransformDerivative(const double input[3], double output[3],
    double derivative[3][3])].  The input is copied to [tmp] first, so the
    inverse solver never runs in place here. *)
Definition InternalTransformDerivative (input : Vec3 D)
  : M F D (Vec3 D * Mat3 D) :=
  flag <- member InverseFlag ;;
  if negb (flag =? 0) then
    let tmp := input in
    r <- call_ForwardTransformDerivative tmp ;;
    output <- InverseTransformPoint false tmp ;;
    ret (output, Invert3x3 (snd r))
  else call_ForwardTransformDerivative input.

(** [InternalTransformDerivative(const float input[3], float output[3],
    float derivative[3][3])]. *)
Definition InternalTransformDerivative_float (input : Vec3 F)
  : M F D (Vec3 F * Mat3 F) :=
  flag <- member InverseFlag ;;
  if negb (flag =? 0) then
    let tmp := input in
    r <- call_ForwardTransformDerivative_float tmp ;;
    output <- InverseTransformPoint_float tmp ;;
    ret (output, Invert3x3_float (snd r))
  else call_ForwardTransformDerivative_float input.

(** Modelled from the spec: [Modified()] of the base class, which is not in
    this file; it "marks the component changed" and touches nothing else. *)
Definition Modified : M F D unit :=
  fun w =>
    let t := self w in
    (tt, mkWorld (mkWarp (InverseFlag t) (InverseTolerance t)
                         (InverseIterations t) (MTime t + 1)%N) (log w)).

(** [Inverse()]: "To invert the transformation, just set the InverseFlag." *)
Definition Inverse : M F D unit :=
  (fun w =>
     let t := self w in
     (tt, mkWorld (mkWarp (lognot (InverseFlag t)) (InverseTolerance t)
                          (InverseIterations t) (MTime t)) (log w))) ;;
  Modified.

End Methods.

(* ================================================================== *)
(** ** Instances of the arithmetic *)

(** *** IEEE-754 binary64 and binary32, round to nearest even *)

Record double : Type := mkDouble { double_bits : spec_float }.
Record float : Type := mkFloat { float_bits : spec_float }.

Definition double_op (op : Z -> Z -> spec_float -> spec_float -> spec_float)
  (a b : double) : double :=
  mkDouble (op 53 1024 (double_bits a) (double_bits b)).

Definition float_op (op : Z -> Z -> spec_float -> spec_float -> spec_float)
  (a b : float) : float :=
  mkFloat (op 24 128 (float_bits a) (float_bits b)).

Definition double_of_Z (z : Z) : double :=
  mkDouble (binary_normalize 53 1024 z 0 false).

Definition float_of_Z (z : Z) : float :=
  mkFloat (binary_normalize 24 128 z 0 false).

(** A decimal literal [p/q] denotes the nearest representable value, which
    is what one correctly rounded division of the two integers yields. *)
Definition double_lit (p q : Z) : double :=
  double_op SFdiv (double_of_Z p) (double_of_Z q).

Definition float_lit (p q : Z) : float :=
  float_op SFdiv (float_of_Z p) (float_of_Z q).

#[export] Instance double_Scalar : Scalar double := {
  sadd := double_op SFadd;
  ssub := double_op SFsub;
  smul := double_op SFmul;
  sdiv := double_op SFdiv;
  sltb := fun a b => SFltb (double_bits a) (double_bits b);
  lit_2 := double_of_Z 2;
  lit_0_1 := double_lit 1 10;
  lit_0_5 := double_lit 1 2;
  lit_0_001 := double_lit 1 1000
}.

#[export] Instance float_Scalar : Scalar float := {
  sadd := float_op SFadd;
  ssub := float_op SFsub;
  smul := float_op SFmul;
  sdiv := float_op SFdiv;
  sltb := fun a b => SFltb (float_bits a) (float_bits b);
  lit_2 := float_of_Z 2;
  lit_0_1 := float_lit 1 10;
  lit_0_5 := float_lit 1 2;
  lit_0_001 := float_lit 1 1000
}.

(** Conversion between the formats: the value rounded into the target
    format (exact when widening). *)
Definition convert_format (prec emax : Z) (x : spec_float) : spec_float :=
  match x with
  | S754_finite s m e => binary_round prec emax s m e
  | _ => x
  end.

#[export] Instance float_double : Precision float double := {
  to_double := fun f => mkDouble (convert_format 53 1024 (float_bits f));
  to_float := fun d => mkFloat (convert_format 24 128 (double_bits d))
}.

(** Zeros and finite numbers, as opposed to infinities and NaN. *)
Definition finite64 (x : double) : bool :=
  match double_bits x with
  | S754_zero _ | S754_finite _ _ _ => true
  | _ => false
  end.

Definition finite64_point (p : Vec3 double) : bool :=
  finite64 (c0 p) && finite64 (c1 p) && finite64 (c2 p).

(** *** Exact rational arithmetic *)

Definition Qc_ltb (a b : Qc) : bool :=
  match (a ?= b)%Qc with Lt => true | _ => false end.

#[export] Instance Qc_Scalar : Scalar Qc := {
  sadd := Qcplus;
  ssub := Qcminus;
  smul := Qcmult;
  sdiv := Qcdiv;
  sltb := Qc_ltb;
  lit_2 := Q2Qc 2;
  lit_0_1 := Q2Qc (1 # 10);
  lit_0_5 := Q2Qc (1 # 2);
  lit_0_001 := Q2Qc (1 # 1000)
}.

(** Integer constants, for writing concrete transforms. *)
Class OfZ (D : Type) : Type := of_Z : Z -> D.
#[export] Instance double_OfZ : OfZ double := double_of_Z.
#[export] Instance float_OfZ : OfZ float := float_of_Z.
#[export] Instance Qc_OfZ : OfZ Qc := fun z => Q2Qc (inject_Z z).

(* ================================================================== *)
(** ** Concrete collaborators, for running the code *)

Section Collaborators.
Context {D : Type} {sc : Scalar D} {oz : OfZ D}.
Local Open Scope scalar_scope.

Definition det3 (a : Mat3 D) : D :=
  c0 (c0 a) * (c1 (c1 a) * c2 (c2 a) - c2 (c1 a) * c1 (c2 a))
  - c1 (c0 a) * (c0 (c1 a) * c2 (c2 a) - c2 (c1 a) * c0 (c2 a))
  + c2 (c0 a) * (c0 (c1 a) * c1 (c2 a) - c1 (c1 a) * c0 (c2 a)).

(** [a] with column [j] replaced by [b]. *)
Definition replace_column (j : nat) (a : Mat3 D) (b : Vec3 D) : Mat3 D :=
  let row (r : Vec3 D) (x : D) :=
    match j with
    | O => mkVec3 x (c1 r) (c2 r)
    | S O => mkVec3 (c0 r) x (c2 r)
    | _ => mkVec3 (c0 r) (c1 r) x
    end in
  mkVec3 (row (c0 a) (c0 b)) (row (c1 a) (c1 b)) (row (c2 a) (c2 b)).

(** Modelled from the spec: [Solve3x3Linear(matrix, rhs) -> vector], the
    solution of [matrix * x = rhs]; [vtkMath] itself is not in this file.
    Cramer's rule. *)
Definition cramer_solve (a : Mat3 D) (b : Vec3 D) : Vec3 D :=
  let d := det3 a in
  mkVec3 (det3 (replace_column 0 a b) / d)
         (det3 (replace_column 1 a b) / d)
         (det3 (replace_column 2 a b) / d).

(** Modelled from the spec: [Invert3x3(matrix) -> matrix]; [vtkMath] itself
    is not in this file.  Adjugate over determinant. *)
Definition adjugate_invert (a : Mat3 D) : Mat3 D :=
  let d := det3 a in
  let a00 := c0 (c0 a) in let a01 := c1 (c0 a) in let a02 := c2 (c0 a) in
  let a10 := c0 (c1 a) in let a11 := c1 (c1 a) in let a12 := c2 (c1 a) in
  let a20 := c0 (c2 a) in let a21 := c1 (c2 a) in let a22 := c2 (c2 a) in
  mkVec3
    (mkVec3 ((a11 * a22 - a12 * a21) / d) ((a02 * a21 - a01 * a22) / d)
            ((a01 * a12 - a02 * a11) / d))
    (mkVec3 ((a12 * a20 - a10 * a22) / d) ((a00 * a22 - a02 * a20) / d)
            ((a02 * a10 - a00 * a12) / d))
    (mkVec3 ((a10 * a21 - a11 * a20) / d) ((a01 * a20 - a00 * a21) / d)
            ((a00 * a11 - a01 * a10) / d)).

Definition diag3 (a b c : D) : Mat3 D :=
  mkVec3 (mkVec3 a (of_Z 0) (of_Z 0))
         (mkVec3 (of_Z 0) b (of_Z 0))
         (mkVec3 (of_Z 0) (of_Z 0) c).

(** The identity warp. *)
Definition identity_point (p : Vec3 D) : Vec3 D := p.
Definition identity_derivative (p : Vec3 D) : Vec3 D * Mat3 D :=
  (p, diag3 (of_Z 1) (of_Z 1) (of_Z 1)).

(** The uniform scale [X -> 2X]. *)
Definition scale2_point (p : Vec3 D) : Vec3 D :=
  mkVec3 (of_Z 2 * c0 p) (of_Z 2 * c1 p) (of_Z 2 * c2 p).
Definition scale2_derivative (p : Vec3 D) : Vec3 D * Mat3 D :=
  (scale2_point p, diag3 (of_Z 2) (of_Z 2) (of_Z 2)).

(** A warp of the first axis only: [(x, y, z) -> (x^3 - 2x + 3, y, z)],
    with Jacobian [diag (3x^2 - 2, 1, 1)]. *)
Definition cubic_point (p : Vec3 D) : Vec3 D :=
  mkVec3 (c0 p * c0 p * c0 p - of_Z 2 * c0 p + of_Z 3) (c1 p) (c2 p).
Definition cubic_derivative (p : Vec3 D) : Vec3 D * Mat3 D :=
  (cubic_point p,
   diag3 (of_Z 3 * (c0 p * c0 p) - of_Z 2) (of_Z 1) (of_Z 1)).

End Collaborators.

(** Each concrete warp evaluates the same formula in the precision of the
    overload that is called. *)
Definition identity_warp (F D : Type) {sf : Scalar F} {sd : Scalar D}
  {zf : OfZ F} {zd : OfZ D} : WarpForward F D :=
  {| ForwardTransformPoint := identity_point;
     ForwardTransformDerivative := identity_derivative;
     ForwardTransformPoint_float := identity_point;
     ForwardTransformDerivative_float := identity_derivative |}.

Definition scale2_warp (F D : Type) {sf : Scalar F} {sd : Scalar D}
  {zf : OfZ F} {zd : OfZ D} : WarpForward F D :=
  {| ForwardTransformPoint := scale2_point;
     ForwardTransformDerivative := scale2_derivative;
     ForwardTransformPoint_float := scale2_point;
     ForwardTransformDerivative_float := scale2_derivative |}.

Definition cubic_warp (F D : Type) {sf : Scalar F} {sd : Scalar D}
  {zf : OfZ F} {zd : OfZ D} : WarpForward F D :=
  {| ForwardTransformPoint := cubic_point;
     ForwardTransformDerivative := cubic_derivative;
     ForwardTransformPoint_float := cubic_point;
     ForwardTransformDerivative_float := cubic_derivative |}.

Definition generic_math (F D : Type) {sf : Scalar F} {sd : Scalar D}
  : vtkMath F D :=
  {| LinearSolve3x3 := cramer_solve;
     Invert3x3 := adjugate_invert;
     Invert3x3_float := adjugate_invert |}.

(** The collaborators in IEEE arithmetic, and in exact arithmetic. *)
Definition math64 : vtkMath float double := generic_math float double.
Definition cubic64 : WarpForward float double := cubic_warp float double.
Definition scale64 : WarpForward float double := scale2_warp float double.
Definition identity64 : WarpForward float double := identity_warp float double.
Definition mathQ : vtkMath Qc Qc := generic_math Qc Qc.
Definition cubicQ : WarpForward Qc Qc := cubic_warp Qc Qc.
Definition identityQ : WarpForward Qc Qc := identity_warp Qc Qc.

(** A point with integer coordinates. *)
Definition point_of {D : Type} {oz : OfZ D} (a b c : Z) : Vec3 D :=
  mkVec3 (of_Z a) (of_Z b) (of_Z c).

(** A freshly constructed object after [SetInverseIterations(n)]. *)
Definition with_budget {D : Type} {sc : Scalar D} (n : Z) : vtkWarpTransform D :=
  mkWarp 0 lit_0_001 n 0%N.

(** Two more warps.  [(x, y, z) -> (x^2, y, z)], whose Jacobian
    [diag (2x, 1, 1)] is singular on the plane [x = 0], and the translation
    by [d]. *)
Section MoreCollaborators.
Context {D : Type} {sc : Scalar D} {oz : OfZ D}.
Local Open Scope scalar_scope.

Definition square_point (p : Vec3 D) : Vec3 D :=
  mkVec3 (c0 p * c0 p) (c1 p) (c2 p).
Definition square_derivative (p : Vec3 D) : Vec3 D * Mat3 D :=
  (square_point p, diag3 (of_Z 2 * c0 p) (of_Z 1) (of_Z 1)).

Definition translate_point (d p : Vec3 D) : Vec3 D :=
  mkVec3 (c0 p + c0 d) (c1 p + c1 d) (c2 p + c2 d).
Definition translate_derivative (d p : Vec3 D) : Vec3 D * Mat3 D :=
  (translate_point d p, diag3 (of_Z 1) (of_Z 1) (of_Z 1)).

End MoreCollaborators.

Definition square_warp (F D : Type) {sf : Scalar F} {sd : Scalar D}
  {zf : OfZ F} {zd : OfZ D} : WarpForward F D :=
  {| ForwardTransformPoint := square_point;
     ForwardTransformDerivative := square_derivative;
     ForwardTransformPoint_float := square_point;
     ForwardTransformDerivative_float := square_derivative |}.

Definition translate_warp (F D : Type) {sf : Scalar F} {sd : Scalar D}
  {zf : OfZ F} {zd : OfZ D} (a b c : Z) : WarpForward F D :=
  {| ForwardTransformPoint := translate_point (point_of a b c);
     ForwardTransformDerivative := translate_derivative (point_of a b c);
     ForwardTransformPoint_float := translate_point (point_of a b c);
     ForwardTransformDerivative_float := translate_derivative (point_of a b c) |}.

Definition square64 : WarpForward float double := square_warp float double.
Definition scaleQ : WarpForward Qc Qc := scale2_warp Qc Qc.
Definition translateQ : WarpForward Qc Qc := translate_warp Qc Qc 1 2 3.

(** A steep warp of the first axis: with [s = 3 * 2^510] and [u = -2 s],
    [(x, y, z) -> (s * ((x/u)^3 - 2 (x/u) + 2), y, z)], the cubic above
    rescaled in both directions; its Jacobian is
    [diag (s * (3 (x/u)^2 - 2) / u, 1, 1)]. *)
Section SteepCollaborator.
Context {D : Type} {sc : Scalar D} {oz : OfZ D}.
Local Open Scope scalar_scope.

Definition steep_scale : Z := 3 * 2 ^ 510.

Definition steep_point (p : Vec3 D) : Vec3 D :=
  let xi := c0 p / of_Z (- 2 * steep_scale) in
  mkVec3 (of_Z steep_scale * (xi * xi * xi - of_Z 2 * xi + of_Z 2))
         (c1 p) (c2 p).

Definition steep_derivative (p : Vec3 D) : Vec3 D * Mat3 D :=
  let xi := c0 p / of_Z (- 2 * steep_scale) in
  (steep_point p,
   diag3 (of_Z steep_scale * (of_Z 3 * (xi * xi) - of_Z 2)
          / of_Z (- 2 * steep_scale))
         (of_Z 1) (of_Z 1)).

End SteepCollaborator.

Definition steep64 : WarpForward float double :=
  {| ForwardTransformPoint := steep_point;
     ForwardTransformDerivative := steep_derivative;
     ForwardTransformPoint_float := steep_point;
     ForwardTransformDerivative_float := steep_derivative |}.

(** [a <= b] in binary64 and in exact arithmetic. *)
Definition double_leb (a b : double) : bool :=
  SFleb (double_bits a) (double_bits b).

Definition Qc_leb (a b : Qc) : bool :=
  match (a ?= b)%Qc with Gt => false | _ => true end.

(** NaN in binary64. *)
Definition is_nan64 (x : double) : bool :=
  match double_bits x with S754_nan => true | _ => false end.

(* ================================================================== *)
(** ** Vocabulary of the specification *)

Section Views.
Context {F D : Type} {sc : Scalar D} {pr : Precision F D}
        {fw : WarpForward F D} {vm : vtkMath F D}.

(** The result of a method on the object [t], and the events it logs. *)
Definition value_of {A : Type} (m : M F D A) (t : vtkWarpTransform D) : A :=
  fst (m (fresh t)).

Definition events_of {A : Type} (m : M F D A) (t : vtkWarpTransform D)
  : list (Event F D) :=
  log (snd (m (fresh t))).

(** A method is framed when it leaves the object alone, only appends to the
    log, and neither its result nor what it appends depends on the log. *)
Definition framed {A : Type} (m : M F D A) : Prop :=
  forall w, m w = (value_of m (self w),
                   mkWorld (self w) (log w ++ events_of m (self w))).

(** The solver's locals at the candidate [x]. *)
Definition state_at (point x : Vec3 D) : IterState D :=
  candidate_state point x (ForwardTransformDerivative x).

(** The seed of the iteration. *)
Definition seed (point : Vec3 D) : Vec3 D :=
  first_guess point (ForwardTransformPoint point).

(** The state one loop iteration leads to, and what the iteration logs. *)
Definition newton_step (point : Vec3 D) (s : IterState D) : IterState D :=
  let deltaI := LinearSolve3x3 (derivative s) (deltaP s) in
  let s1 := state_at point (full_step (inverse s) deltaI) in
  if (errorSquared s1 >? errorSquared s)%S
  then state_at point (backtrack_candidate s deltaI (errorSquared s1))
  else s1.

Definition iteration_events (point : Vec3 D) (s : IterState D)
  : list (Event F D) :=
  let deltaI := LinearSolve3x3 (derivative s) (deltaP s) in
  let s1 := state_at point (full_step (inverse s) deltaI) in
  EvForwardDerivative (full_step (inverse s) deltaI) ::
  (if (errorSquared s1 >? errorSquared s)%S
   then [EvForwardDerivative (backtrack_candidate s deltaI (errorSquared s1))]
   else []).

Fixpoint loop_events (point : Vec3 D) (s : IterState D) (k : nat)
  : list (Event F D) :=
  match k with
  | O => []
  | S k' => iteration_events point s ++ loop_events point (newton_step point s) k'
  end.

(** The locals after [k] iterations: the [k]-th accepted candidate with its
    recorded error. *)
Definition iterate (point : Vec3 D) (k : nat) : IterState D :=
  Nat.iter k (newton_step point) (state_at point (seed point)).

Definition toleranceSquared (t : vtkWarpTransform D) : D :=
  (InverseTolerance t * InverseTolerance t)%S.

(** The loop test at counter [i] and locals [s]. *)
Definition continues (n : Z) (tol2 : D) (i : Z) (s : IterState D) : bool :=
  (i <? n) && (errorSquared s >? tol2)%S.

(** The loop counter and the locals a call ends with. *)
Definition iterations (t : vtkWarpTransform D) (point : Vec3 D) : Z :=
  fst (value_of (InverseTransformPoint_solve point) t).

Definition final_state (t : vtkWarpTransform D) (point : Vec3 D) : IterState D :=
  snd (value_of (InverseTransformPoint_solve point) t).

Definition is_warning (e : Event F D) : bool :=
  match e with EvWarning _ _ _ => true | _ => false end.

Definition is_forward_point (e : Event F D) : bool :=
  match e with EvForwardPoint _ => true | _ => false end.

Definition is_forward_derivative (e : Event F D) : bool :=
  match e with EvForwardDerivative _ => true | _ => false end.

(** The recorded errors never go up over the iterations of a call. *)
Definition errors_never_increase (t : vtkWarpTransform D) (point : Vec3 D) : Prop :=
  forall k : nat,
    (Z.of_nat (S k) <= iterations t point) ->
    (errorSquared (iterate point (S k)) >? errorSquared (iterate point k))%S = false.

(** The returned point is the candidate with the smallest recorded error. *)
Definition returns_best_candidate (t : vtkWarpTransform D) (point : Vec3 D) : Prop :=
  forall in_place k,
    (Z.of_nat k <= iterations t point) ->
    value_of (InverseTransformPoint in_place point) t
      = inverse (final_state t point) /\
    (errorSquared (final_state t point) >? errorSquared (iterate point k))%S = false.

(** Two objects that agree on the mode, the tolerance and the budget. *)
Definition same_settings (t t' : vtkWarpTransform D) : Prop :=
  mode t = mode t' /\
  InverseTolerance t = InverseTolerance t' /\
  InverseIterations t = InverseIterations t'.

(** "Converts input to wide precision, calls the wide-precision
    implementation, converts the result back to narrow precision." *)
Definition convert_compute_convert (wide : Vec3 D -> M F D (Vec3 D))
  (input : Vec3 F) : M F D (Vec3 F) :=
  fun w =>
    let r := wide (vmap to_double input) w in
    (vmap to_float (fst r), snd r).

(** The same for a point with its derivative. *)
Definition convert_compute_convert_derivative
  (wide : Vec3 D -> M F D (Vec3 D * Mat3 D)) (input : Vec3 F)
  : M F D (Vec3 F * Mat3 F) :=
  fun w =>
    let r := wide (vmap to_double input) w in
    ((vmap to_float (fst (fst r)), vmap (vmap to_float) (snd (fst r))), snd r).

End Views.

(** Laws of the comparison the bounds on the step fraction rest on; they
    hold in IEEE arithmetic (a NaN compares false) and in exact arithmetic. *)
Class ScalarOrder (D : Type) {sc : Scalar D} : Prop := {
  sltb_irrefl : forall a : D, (a <? a)%S = false;
  tenth_below_half : (lit_0_5 <? lit_0_1)%S = false
}.

(** Exact arithmetic: the operations form a commutative ring in which [2]
    is [1 + 1] and no square is negative. *)
Class ExactScalar (D : Type) {sc : Scalar D} : Type := {
  szero : D;
  sone : D;
  sopp : D -> D;
  exact_ring : ring_theory szero sone sadd smul ssub sopp (@eq D);
  exact_two : lit_2 = (sone + sone)%S;
  square_nonneg : forall a : D, (a * a <? szero)%S = false
}.

(** *** Vocabulary for the further properties *)

Section MoreViews.
Context {F D : Type} {sc : Scalar D} {pr : Precision F D}
        {fw : WarpForward F D} {vm : vtkMath F D}.

Definition vadd (a b : Vec3 D) : Vec3 D :=
  mkVec3 (c0 a + c0 b)%S (c1 a + c1 b)%S (c2 a + c2 b)%S.

Definition dot (r x : Vec3 D) : D :=
  (c0 r * c0 x + c1 r * c1 x + c2 r * c2 x)%S.

(** The product of a matrix, given by its rows, and a vector. *)
Definition matvec (A : Mat3 D) (x : Vec3 D) : Vec3 D :=
  mkVec3 (dot (c0 A) x) (dot (c1 A) x) (dot (c2 A) x).

Definition is_debug (e : Event F D) : bool :=
  match e with EvDebug _ => true | _ => false end.

(** The calls of the [float] overloads of the forward evaluator. *)
Definition is_float_call (e : Event F D) : bool :=
  match e with
  | EvForwardPoint_float _ | EvForwardDerivative_float _ => true
  | _ => false
  end.

(** The locals after the full Newton step from [s], before the test that
    may send the iteration into the backtracking branch. *)
Definition full_step_state (point : Vec3 D) (s : IterState D) : IterState D :=
  state_at point
    (full_step (inverse s) (LinearSolve3x3 (derivative s) (deltaP s))).

(** [k] calls of [Inverse()] in a row. *)
Fixpoint Inverse_times (k : nat) : M F D unit :=
  match k with
  | O => ret tt
  | S k' => bind Inverse (fun _ => Inverse_times k')
  end.

End MoreViews.

(** "Not greater" is transitive: true in exact arithmetic, false in IEEE
    arithmetic, where a NaN is not greater than anything. *)
Class ScalarLeTrans (D : Type) {sc : Scalar D} : Prop := {
  not_gt_trans : forall a b c : D,
    (a >? b)%S = false -> (b >? c)%S = false -> (a >? c)%S = false
}.

(** No sum of three squares is negative. *)
Class ExactOrder (D : Type) {sc : Scalar D} {ex : ExactScalar D} : Prop := {
  sum_squares_nonneg : forall a b c : D,
    (a * a + b * b + c * c <? szero)%S = false
}.

(** The comparison [<=] and the test for values that compare with nothing
    (NaN), with what links them to [<]: two values that compare and of
    which the first is not below the second are in the order [second <=
    first]. *)
Class ScalarCompare (D : Type) {sc : Scalar D} : Type := {
  sleb : D -> D -> bool;
  unordered : D -> bool;
  le_of_not_lt : forall a b : D,
    unordered a = false -> unordered b = false ->
    (a <? b)%S = false -> sleb b a = true;
  tenth_ordered : unordered lit_0_1 = false;
  half_ordered : unordered lit_0_5 = false;
  tenth_le_half : sleb lit_0_1 lit_0_5 = true
}.

(** What the seed of a fixed point needs of the arithmetic, on the values
    [finite_value] accepts: [a - a] is the zero [czero], [2 * czero] is
    [czero], [a - czero] is [a], the three squares of [czero] add up to
    [czero], and [czero] is above no square. *)
Class SeedArithmetic (D : Type) {sc : Scalar D} : Type := {
  czero : D;
  finite_value : D -> bool;
  sub_self : forall a : D, finite_value a = true -> (a - a)%S = czero;
  two_times_zero : (lit_2 * czero)%S = czero;
  sub_zero : forall a : D, finite_value a = true -> (a - czero)%S = a;
  zero_sum_squares : (czero * czero + czero * czero + czero * czero)%S = czero;
  zero_not_above_square : forall a : D, (czero >? a * a)%S = false
}.

(* ================================================================== *)
(** ** How the methods run *)

Section Running.
Context {F D : Type} {sc : Scalar D} {pr : Precision F D}
        {fw : WarpForward F D} {vm : vtkMath F D}.
Local Open Scope warp_scope.

Lemma world_eta (w : World F D) : mkWorld (self w) (log w) = w.
Proof. destruct w; reflexivity. Qed.

Lemma framed_ret {A : Type} (a : A) : framed (ret a : M F D A).
Proof.
  intros w. unfold value_of, events_of, ret; simpl.
  rewrite app_nil_r. now rewrite world_eta.
Qed.

Lemma framed_emit (e : Event F D) : framed (emit e).
Proof. intros w. reflexivity. Qed.

Lemma framed_member {A : Type} (field : vtkWarpTransform D -> A) :
  framed (member field : M F D A).
Proof.
  intros w. unfold value_of, events_of, member; simpl.
  rewrite app_nil_r. now rewrite world_eta.
Qed.

Lemma framed_bind {A B : Type} (m : M F D A) (k : A -> M F D B) :
  framed m -> (forall a, framed (k a)) -> framed (bind m k).
Proof.
  intros Hm Hk w.
  unfold value_of, events_of, bind.
  rewrite (Hm w), (Hm (fresh (self w))).
  rewrite (Hk _ (mkWorld (self w) (log w ++ _))).
  rewrite (Hk _ (mkWorld (self (fresh (self w))) _)).
  simpl. now rewrite app_assoc.
Qed.

Lemma value_of_bind {A B : Type} (m : M F D A) (k : A -> M F D B) t :
  framed m -> (forall a, framed (k a)) ->
  value_of (bind m k) t = value_of (k (value_of m t)) t.
Proof.
  intros Hm Hk. unfold value_of at 1, bind.
  rewrite (Hm (fresh t)). simpl. now rewrite (Hk _ (mkWorld t _)).
Qed.

Lemma events_of_bind {A B : Type} (m : M F D A) (k : A -> M F D B) t :
  framed m -> (forall a, framed (k a)) ->
  events_of (bind m k) t = events_of m t ++ events_of (k (value_of m t)) t.
Proof.
  intros Hm Hk. unfold events_of at 1, bind.
  rewrite (Hm (fresh t)). simpl. now rewrite (Hk _ (mkWorld t _)).
Qed.

Lemma bind_member {A B : Type} (field : vtkWarpTransform D -> A)
  (k : A -> M F D B) (w : World F D) :
  bind (member field) k w = k (field (self w)) w.
Proof. reflexivity. Qed.

Lemma framed_self {A : Type} (m : M F D A) w :
  framed m -> self (snd (m w)) = self w.
Proof. intros Hm. now rewrite (Hm w). Qed.

Lemma framed_fst {A : Type} (m : M F D A) w :
  framed m -> fst (m w) = value_of m (self w).
Proof. intros Hm. now rewrite (Hm w). Qed.

Lemma framed_log {A : Type} (m : M F D A) w :
  framed m -> log (snd (m w)) = log w ++ events_of m (self w).
Proof. intros Hm. now rewrite (Hm w). Qed.

(** *** The forward evaluator *)

Lemma call_ForwardTransformPoint_run p (w : World F D) :
  call_ForwardTransformPoint p w
  = (ForwardTransformPoint p, mkWorld (self w) (log w ++ [EvForwardPoint p])).
Proof. reflexivity. Qed.

Lemma call_ForwardTransformDerivative_run p (w : World F D) :
  call_ForwardTransformDerivative p w
  = (ForwardTransformDerivative p,
     mkWorld (self w) (log w ++ [EvForwardDerivative p])).
Proof. reflexivity. Qed.

Lemma evaluate_candidate_run point x (w : World F D) :
  evaluate_candidate point x w
  = (state_at point x, mkWorld (self w) (log w ++ [EvForwardDerivative x])).
Proof. reflexivity. Qed.

(** *** One iteration *)

Lemma newton_iteration_run point s (w : World F D) :
  newton_iteration point s w
  = (newton_step point s,
     mkWorld (self w) (log w ++ iteration_events point s)).
Proof.
  unfold newton_iteration, newton_step, iteration_events, bind.
  rewrite evaluate_candidate_run.
  destruct (sltb (errorSquared s) (errorSquared (state_at point _))).
  - rewrite evaluate_candidate_run. simpl. now rewrite <- app_assoc.
  - reflexivity.
Qed.

(** *** The loop *)

Lemma iter_step_shift (f : IterState D -> IterState D) k s :
  Nat.iter k f (f s) = Nat.iter (S k) f s.
Proof. symmetry. apply Nat.iter_succ_r. Qed.

Lemma newton_loop_run n tol2 point :
  forall fuel i s (w : World F D),
  exists k : nat,
    (k <= fuel)%nat /\
    newton_loop fuel n tol2 point i s w
    = ((i + Z.of_nat k, Nat.iter k (newton_step point) s),
       mkWorld (self w) (log w ++ loop_events point s k)) /\
    (forall j, (j < k)%nat ->
       continues n tol2 (i + Z.of_nat j) (Nat.iter j (newton_step point) s) = true) /\
    ((k < fuel)%nat ->
       continues n tol2 (i + Z.of_nat k) (Nat.iter k (newton_step point) s) = false).
Proof.
  induction fuel as [|fuel IH]; intros i s w.
  - exists O. simpl. rewrite Z.add_0_r, app_nil_r, world_eta.
    repeat split; intros; lia.
  - simpl. fold (continues n tol2 i s).
    destruct (continues n tol2 i s) eqn:Hc.
    + unfold bind. rewrite newton_iteration_run.
      destruct (IH (i + 1) (newton_step point s)
                   (mkWorld (self w) (log w ++ iteration_events point s)))
        as (k & Hk & Hrun & Hbefore & Hexit).
      exists (S k). split; [lia|]. split; [|split].
      * rewrite Hrun. rewrite iter_step_shift. simpl self; simpl log.
        rewrite <- app_assoc. simpl loop_events.
        now replace (i + 1 + Z.of_nat k) with (i + Z.of_nat (S k)) by lia.
      * intros [|j] Hj.
        -- simpl. now rewrite Z.add_0_r.
        -- rewrite <- iter_step_shift.
           replace (i + Z.of_nat (S j)) with (i + 1 + Z.of_nat j) by lia.
           apply Hbefore. lia.
      * intros Hlt. rewrite <- iter_step_shift.
        replace (i + Z.of_nat (S k)) with (i + 1 + Z.of_nat k) by lia.
        apply Hexit. lia.
    + exists O. simpl. rewrite Z.add_0_r, app_nil_r, world_eta.
      repeat split; try lia; intros; try lia. exact Hc.
Qed.

(** Any fuel that covers the remaining budget gives the same run: the loop
    is total, and [Z.to_nat n] is enough for a call. *)
Lemma newton_loop_fuel n tol2 point :
  forall fuel1 fuel2 i s (w : World F D),
    (Z.to_nat (n - i) <= fuel1)%nat -> (Z.to_nat (n - i) <= fuel2)%nat ->
    newton_loop fuel1 n tol2 point i s w = newton_loop fuel2 n tol2 point i s w.
Proof.
  induction fuel1 as [|f1 IH]; intros [|f2] i s w H1 H2; simpl; trivial.
  - destruct (Z.ltb_spec i n); [lia | reflexivity].
  - destruct (Z.ltb_spec i n); [lia | reflexivity].
  - destruct (Z.ltb_spec i n); simpl; [|reflexivity].
    destruct (sltb tol2 (errorSquared s)); [|reflexivity].
    unfold bind. rewrite newton_iteration_run. apply IH; lia.
Qed.

Lemma framed_of_run {A : Type} (m : M F D A) (a : vtkWarpTransform D -> A)
  (evs : vtkWarpTransform D -> list (Event F D)) :
  (forall w, m w = (a (self w), mkWorld (self w) (log w ++ evs (self w)))) ->
  framed m.
Proof.
  intros H w. unfold value_of, events_of. now rewrite (H w), (H (fresh _)).
Qed.

Lemma framed_call_ForwardTransformPoint p :
  framed (call_ForwardTransformPoint p).
Proof. intros w. reflexivity. Qed.

Lemma framed_call_ForwardTransformDerivative p :
  framed (call_ForwardTransformDerivative p).
Proof. intros w. reflexivity. Qed.

Lemma framed_call_ForwardTransformPoint_float p :
  framed (call_ForwardTransformPoint_float p).
Proof. intros w. reflexivity. Qed.

Lemma framed_call_ForwardTransformDerivative_float p :
  framed (call_ForwardTransformDerivative_float p).
Proof. intros w. reflexivity. Qed.

Lemma framed_evaluate_candidate point x : framed (evaluate_candidate point x).
Proof. intros w. reflexivity. Qed.

Lemma framed_newton_iteration point s : framed (newton_iteration point s).
Proof.
  apply (framed_of_run _ (fun _ => newton_step point s)
                         (fun _ => iteration_events point s)).
  intros w. apply newton_iteration_run.
Qed.

Lemma framed_newton_loop n tol2 point :
  forall fuel i s, framed (newton_loop fuel n tol2 point i s).
Proof.
  induction fuel as [|fuel IH]; intros i s; simpl.
  - apply framed_ret.
  - destruct ((i <? n) && sltb tol2 (errorSquared s)).
    + apply framed_bind; [apply framed_newton_iteration | intros; apply IH].
    + apply framed_ret.
Qed.

Lemma framed_InverseTransformPoint_solve point :
  framed (InverseTransformPoint_solve point).
Proof.
  unfold InverseTransformPoint_solve.
  apply framed_bind; [apply framed_member | intros tol].
  apply framed_bind; [apply framed_call_ForwardTransformPoint | intros fwd].
  apply framed_bind; [apply framed_evaluate_candidate | intros s0].
  apply framed_bind; [apply framed_member | intros n].
  apply framed_newton_loop.
Qed.

Lemma framed_InverseTransformPoint in_place point :
  framed (InverseTransformPoint in_place point).
Proof.
  unfold InverseTransformPoint.
  apply framed_bind; [apply framed_InverseTransformPoint_solve | intros r].
  apply framed_bind; [apply framed_emit | intros _].
  apply framed_bind; [apply framed_member | intros n].
  apply framed_bind; [|intros; apply framed_ret].
  destruct (fst r >=? n); [apply framed_emit | apply framed_ret].
Qed.

Lemma framed_InverseTransformPoint_float point :
  framed (InverseTransformPoint_float point).
Proof.
  unfold InverseTransformPoint_float.
  apply framed_bind; [apply framed_InverseTransformPoint | intros; apply framed_ret].
Qed.

Lemma framed_InternalTransformPoint in_place input :
  framed (InternalTransformPoint in_place input).
Proof.
  unfold InternalTransformPoint.
  apply framed_bind; [apply framed_member | intros flag].
  destruct (negb (flag =? 0));
    [apply framed_InverseTransformPoint | apply framed_call_ForwardTransformPoint].
Qed.

Lemma framed_InternalTransformPoint_float input :
  framed (InternalTransformPoint_float input).
Proof.
  unfold InternalTransformPoint_float.
  apply framed_bind; [apply framed_member | intros flag].
  destruct (negb (flag =? 0));
    [apply framed_InverseTransformPoint_float
    | apply framed_call_ForwardTransformPoint_float].
Qed.

Lemma framed_InternalTransformDerivative input :
  framed (InternalTransformDerivative input).
Proof.
  unfold InternalTransformDerivative.
  apply framed_bind; [apply framed_member | intros flag].
  destruct (negb (flag =? 0)); [|apply framed_call_ForwardTransformDerivative].
  apply framed_bind; [apply framed_call_ForwardTransformDerivative | intros r].
  apply framed_bind; [apply framed_InverseTransformPoint | intros; apply framed_ret].
Qed.

Lemma framed_InternalTransformDerivative_float input :
  framed (InternalTransformDerivative_float input).
Proof.
  unfold InternalTransformDerivative_float.
  apply framed_bind; [apply framed_member | intros flag].
  destruct (negb (flag =? 0));
    [|apply framed_call_ForwardTransformDerivative_float].
  apply framed_bind;
    [apply framed_call_ForwardTransformDerivative_float | intros r].
  apply framed_bind;
    [apply framed_InverseTransformPoint_float | intros; apply framed_ret].
Qed.

Lemma framed_if {A : Type} (b : bool) (m1 m2 : M F D A) :
  framed m1 -> framed m2 -> framed (if b then m1 else m2).
Proof. now destruct b. Qed.

Lemma value_of_member {A : Type} (field : vtkWarpTransform D -> A) t :
  value_of (member field : M F D A) t = field t.
Proof. reflexivity. Qed.

Lemma events_of_member {A : Type} (field : vtkWarpTransform D -> A) t :
  events_of (member field : M F D A) t = [].
Proof. reflexivity. Qed.

Lemma value_of_ret {A : Type} (a : A) t : value_of (ret a : M F D A) t = a.
Proof. reflexivity. Qed.

Lemma events_of_ret {A : Type} (a : A) t : events_of (ret a : M F D A) t = [].
Proof. reflexivity. Qed.

Lemma value_of_if {A : Type} (b : bool) (m1 m2 : M F D A) t :
  value_of (if b then m1 else m2) t
  = if b then value_of m1 t else value_of m2 t.
Proof. now destruct b. Qed.

Lemma events_of_if {A : Type} (b : bool) (m1 m2 : M F D A) t :
  events_of (if b then m1 else m2) t
  = if b then events_of m1 t else events_of m2 t.
Proof. now destruct b. Qed.

(** *** The solver *)

(** A call runs some number [k] of iterations: it ends in the [k]-th
    iterate, the loop test held before each of the [k] iterations and fails
    after the last. *)
Lemma InverseTransformPoint_solve_run point (w : World F D) :
  let n := InverseIterations (self w) in
  let tol2 := toleranceSquared (self w) in
  exists k : nat,
    InverseTransformPoint_solve point w
    = ((Z.of_nat k, iterate point k),
       mkWorld (self w)
         (log w ++ EvForwardPoint point :: EvForwardDerivative (seed point)
                :: loop_events point (iterate point 0) k)) /\
    (forall j, (j < k)%nat ->
       continues n tol2 (Z.of_nat j) (iterate point j) = true) /\
    continues n tol2 (Z.of_nat k) (iterate point k) = false.
Proof.
  intros n tol2. subst tol2. unfold toleranceSquared.
  unfold InverseTransformPoint_solve, bind, member.
  rewrite call_ForwardTransformPoint_run, evaluate_candidate_run.
  simpl self; simpl log. fold n (seed point).
  set (tol2 := (InverseTolerance (self w) * InverseTolerance (self w))%S).
  destruct (newton_loop_run n tol2 point (Z.to_nat n) 0
              (state_at point (seed point))
              (mkWorld (self w)
                 ((log w ++ [EvForwardPoint point])
                  ++ [EvForwardDerivative (seed point)])))
    as (k & Hk & Hrun & Hbefore & Hexit).
  exists k. split; [|split].
  - rewrite Hrun. simpl.
    now rewrite <- !app_assoc.
  - intros j Hj. apply (Hbefore j Hj).
  - destruct (Nat.eq_dec k (Z.to_nat n)) as [->|Hne].
    + unfold continues. destruct (Z.ltb_spec (Z.of_nat (Z.to_nat n)) n);
        [lia | reflexivity].
    + apply Hexit. lia.
Qed.

Lemma solve_spec (t : vtkWarpTransform D) point :
  let n := InverseIterations t in
  let tol2 := toleranceSquared t in
  exists k : nat,
    iterations t point = Z.of_nat k /\
    final_state t point = iterate point k /\
    events_of (InverseTransformPoint_solve point) t
    = EvForwardPoint point :: EvForwardDerivative (seed point)
        :: loop_events point (iterate point 0) k /\
    (forall j, (j < k)%nat ->
       continues n tol2 (Z.of_nat j) (iterate point j) = true) /\
    continues n tol2 (Z.of_nat k) (iterate point k) = false.
Proof.
  intros n tol2.
  destruct (InverseTransformPoint_solve_run point (fresh t))
    as (k & Hrun & Hbefore & Hexit).
  exists k. unfold iterations, final_state, value_of, events_of.
  rewrite Hrun. simpl. repeat split; assumption.
Qed.

Lemma final_state_iterate (t : vtkWarpTransform D) point :
  final_state t point = iterate point (Z.to_nat (iterations t point)).
Proof.
  destruct (solve_spec t point) as (k & Hi & Hs & _).
  now rewrite Hs, Hi, Nat2Z.id.
Qed.

Lemma iterations_bounds (t : vtkWarpTransform D) point :
  0 <= iterations t point <= Z.max 0 (InverseIterations t).
Proof.
  destruct (solve_spec t point) as (k & Hi & _ & _ & Hbefore & _).
  rewrite Hi. split; [lia|].
  destruct k as [|k]; [lia|].
  specialize (Hbefore k (Nat.lt_succ_diag_r k)).
  unfold continues in Hbefore. apply andb_prop in Hbefore as [Hlt _].
  apply Z.ltb_lt in Hlt. lia.
Qed.

(** The whole call: the result is the last candidate; the log gains the
    solver's calls, the debug line and, when the counter reached the
    budget, the warning. *)
Lemma InverseTransformPoint_run in_place point (w : World F D) :
  let t := self w in
  let i := iterations t point in
  let output := inverse (final_state t point) in
  InverseTransformPoint in_place point w
  = (output,
     mkWorld t
       (log w ++ events_of (InverseTransformPoint_solve point) t
              ++ EvDebug (i + 1)
              :: (if i >=? InverseIterations t
                  then [EvWarning (if in_place then output else point)
                                  (errorSquared (final_state t point)) i]
                  else []))).
Proof.
  intros t i output.
  unfold InverseTransformPoint, bind.
  rewrite (framed_InverseTransformPoint_solve point w).
  fold t. unfold emit, member, ret. simpl.
  fold (iterations t point) (final_state t point). fold i output.
  destruct (i >=? InverseIterations t); simpl;
    now rewrite <- !app_assoc.
Qed.

End Running.

(* ================================================================== *)
(** ** Properties of the dispatch and of the solver *)

Section Properties.
Context {F D : Type} {sc : Scalar D} {pr : Precision F D}
        {fw : WarpForward F D} {vm : vtkMath F D}.
Local Open Scope warp_scope.

(** *** Results and logs of the public methods *)

Lemma value_of_InverseTransformPoint in_place point (t : vtkWarpTransform D) :
  value_of (InverseTransformPoint in_place point) t
  = inverse (final_state t point).
Proof.
  unfold value_of. now rewrite InverseTransformPoint_run.
Qed.

Lemma events_of_InverseTransformPoint in_place point (t : vtkWarpTransform D) :
  let i := iterations t point in
  let output := inverse (final_state t point) in
  events_of (InverseTransformPoint in_place point) t
  = events_of (InverseTransformPoint_solve point) t
      ++ EvDebug (F := F) (i + 1)
      :: (if i >=? InverseIterations t
          then [EvWarning (if in_place then output else point)
                          (errorSquared (final_state t point)) i]
          else []).
Proof.
  intros i output. unfold events_of at 1. now rewrite InverseTransformPoint_run.
Qed.

Lemma value_of_InverseTransformPoint_float point (t : vtkWarpTransform D) :
  value_of (InverseTransformPoint_float point) t
  = vmap to_float (inverse (final_state t (vmap to_double point))).
Proof.
  unfold InverseTransformPoint_float.
  rewrite value_of_bind;
    [|apply framed_InverseTransformPoint | intros; apply framed_ret].
  now rewrite value_of_InverseTransformPoint.
Qed.

Lemma newton_loop_any_object n tol2 point :
  forall fuel i s (t t' : vtkWarpTransform D),
    value_of (newton_loop fuel n tol2 point i s) t
    = value_of (newton_loop fuel n tol2 point i s) t' /\
    events_of (newton_loop fuel n tol2 point i s) t
    = events_of (newton_loop fuel n tol2 point i s) t'.
Proof.
  intros fuel i s t t'.
  destruct (newton_loop_run n tol2 point fuel i s (fresh t))
    as (k & Hk & Hrun & Hbefore & Hexit).
  destruct (newton_loop_run n tol2 point fuel i s (fresh t'))
    as (k' & Hk' & Hrun' & Hbefore' & Hexit').
  assert (k = k') as <-.
  { destruct (Nat.lt_trichotomy k k') as [Hlt|[Heq|Hgt]]; [|exact Heq|].
    - specialize (Hbefore' k Hlt).
      rewrite Hexit in Hbefore' by lia. discriminate.
    - specialize (Hbefore k' Hgt).
      rewrite Hexit' in Hbefore by lia. discriminate. }
  unfold value_of, events_of. rewrite Hrun, Hrun'. now simpl.
Qed.

Lemma solve_same_settings point (t t' : vtkWarpTransform D) :
  same_settings t t' ->
  value_of (InverseTransformPoint_solve point) t
  = value_of (InverseTransformPoint_solve point) t' /\
  events_of (InverseTransformPoint_solve point) t
  = events_of (InverseTransformPoint_solve point) t'.
Proof.
  intros (_ & Htol & Hn).
  unfold value_of, events_of, InverseTransformPoint_solve, bind, member.
  rewrite !call_ForwardTransformPoint_run, !evaluate_candidate_run.
  simpl self; simpl log. rewrite <- Htol, <- Hn.
  set (n := InverseIterations t).
  set (tol2 := (InverseTolerance t * InverseTolerance t)%S).
  set (s0 := state_at point _).
  rewrite !framed_fst, !framed_log by apply framed_newton_loop.
  cbn [self log].
  destruct (newton_loop_any_object n tol2 point (Z.to_nat n) 0 s0 t t')
    as [-> ->].
  split; reflexivity.
Qed.

Lemma InverseTransformPoint_same_settings in_place point
  (t t' : vtkWarpTransform D) :
  same_settings t t' ->
  value_of (InverseTransformPoint in_place point) t
  = value_of (InverseTransformPoint in_place point) t' /\
  events_of (InverseTransformPoint in_place point) t
  = events_of (InverseTransformPoint in_place point) t'.
Proof.
  intros Hs. destruct (solve_same_settings point t t' Hs) as [Hv He].
  rewrite !value_of_InverseTransformPoint, !events_of_InverseTransformPoint.
  unfold final_state, iterations. rewrite Hv, He.
  destruct Hs as (_ & _ & ->). split; reflexivity.
Qed.

Lemma mode_flag (t : vtkWarpTransform D) :
  negb (InverseFlag t =? 0) = match mode t with InverseMode => true | Forward => false end.
Proof. unfold mode. now destruct (InverseFlag t =? 0). Qed.

Lemma loop_events_derivative_only point :
  forall k s,
    Forall (fun e : Event F D => is_forward_derivative e = true)
           (loop_events point s k).
Proof.
  induction k as [|k IH]; intros s; cbn [loop_events]; [constructor|].
  apply Forall_app. split; [|apply IH].
  unfold iteration_events. constructor; [reflexivity|].
  destruct (sltb _ _); repeat constructor.
Qed.

Lemma filter_none {A : Type} (p q : A -> bool) (l : list A) :
  (forall a, q a = true -> p a = false) ->
  Forall (fun a => q a = true) l -> filter p l = [].
Proof.
  intros Hpq Hl. induction Hl as [|a l Ha _ IH]; simpl; [reflexivity|].
  now rewrite (Hpq a Ha).
Qed.

(** Leaving the loop before the budget is used up means the tolerance is
    met. *)
Lemma early_exit_within_tolerance (t : vtkWarpTransform D) point :
  iterations t point < InverseIterations t ->
  (errorSquared (final_state t point) >? toleranceSquared t)%S = false.
Proof.
  intros Hlt.
  destruct (solve_spec t point) as (k & Hi & Hs & _ & _ & Hexit).
  unfold continues in Hexit. rewrite <- Hi, <- Hs in Hexit.
  apply andb_false_iff in Hexit as [Hexit|Hexit]; [|exact Hexit].
  apply Z.ltb_ge in Hexit. lia.
Qed.

(** *** The solver's result is what its last residual was measured at *)




(** C2.  In inverse mode [InternalTransformDerivative] returns the point
    the Newton solver finds for the input and the [Invert3x3] of the forward
    Jacobian taken at the input itself; in forward mode it is exactly
    [ForwardTransformDerivative].  Both overloads. *)
Theorem InternalTransformDerivative_by_mode (input : Vec3 D)
  (input_f : Vec3 F) (w : World F D) :
  let t := self w in
  match mode t with
  | InverseMode =>
      fst (InternalTransformDerivative input w)
      = (value_of (InverseTransformPoint false input) t,
         Invert3x3 (snd (ForwardTransformDerivative input))) /\
      fst (InternalTransformDerivative_float input_f w)
      = (value_of (InverseTransformPoint_float input_f) t,
         Invert3x3_float (snd (ForwardTransformDerivative_float input_f)))
  | Forward =>
      InternalTransformDerivative input w
      = call_ForwardTransformDerivative input w /\
      fst (InternalTransformDerivative input w)
      = ForwardTransformDerivative input /\
      InternalTransformDerivative_float input_f w
      = call_ForwardTransformDerivative_float input_f w /\
      fst (InternalTransformDerivative_float input_f w)
      = ForwardTransformDerivative_float input_f
  end.
Proof.
  intros t.
  unfold InternalTransformDerivative, InternalTransformDerivative_float.
  rewrite !bind_member. fold t. rewrite (mode_flag t).
  destruct (mode t).
  - repeat split.
  - split.
    + unfold bind. rewrite call_ForwardTransformDerivative_run.
      rewrite (framed_InverseTransformPoint false input (mkWorld _ _)).
      reflexivity.
    + unfold bind.
      replace (call_ForwardTransformDerivative_float input_f w)
        with (ForwardTransformDerivative_float input_f,
              mkWorld (self w) (log w ++ [EvForwardDerivative_float input_f]))
        by reflexivity.
      rewrite (framed_InverseTransformPoint_float input_f (mkWorld _ _)).
      reflexivity.
Qed.

(** *** The mode flag *)

Lemma Inverse_run (w : World F D) :
  Inverse w
  = (tt, mkWorld (mkWarp (lognot (InverseFlag (self w)))
                         (InverseTolerance (self w))
                         (InverseIterations (self w))
                         (MTime (self w) + 1)%N) (log w)).
Proof. reflexivity. Qed.

Lemma mode_lognot (t : vtkWarpTransform D) x tol n m :
  InverseFlag t = x ->
  mode (mkWarp (lognot x) tol n m : vtkWarpTransform D) = other_mode (mode t).
Proof.
  intros <-. unfold mode, lognot; simpl.
  now destruct (InverseFlag t =? 0).
Qed.

Lemma other_mode_involutive m : other_mode (other_mode m) = m.
Proof. now destruct m. Qed.

Lemma Inverse_twice_same_settings (w : World F D) :
  same_settings (self (snd (Inverse (snd (Inverse w))))) (self w).
Proof.
  rewrite !Inverse_run. cbn [snd self InverseFlag InverseTolerance InverseIterations].
  repeat split.
  unfold mode, lognot; simpl. now destruct (InverseFlag (self w) =? 0).
Qed.

Ltac framedness :=
  repeat first
    [ apply framed_ret | apply framed_emit | apply framed_member
    | apply framed_call_ForwardTransformPoint
    | apply framed_call_ForwardTransformDerivative
    | apply framed_call_ForwardTransformPoint_float
    | apply framed_call_ForwardTransformDerivative_float
    | apply framed_InverseTransformPoint
    | apply framed_InverseTransformPoint_float
    | apply framed_if | apply framed_bind | intro ].

Ltac run_binds :=
  repeat (first [ rewrite value_of_bind by framedness
                | rewrite events_of_bind by framedness
                | rewrite value_of_member | rewrite events_of_member
                | rewrite value_of_if | rewrite events_of_if
                | rewrite value_of_ret | rewrite events_of_ret ]).

Lemma InverseTransformPoint_float_same_settings input
  (t t' : vtkWarpTransform D) :
  same_settings t t' ->
  value_of (InverseTransformPoint_float input) t
  = value_of (InverseTransformPoint_float input) t' /\
  events_of (InverseTransformPoint_float input) t
  = events_of (InverseTransformPoint_float input) t'.
Proof.
  intros Hs.
  destruct (InverseTransformPoint_same_settings true (vmap to_double input)
              t t' Hs) as [Hv He].
  unfold InverseTransformPoint_float. run_binds.
  now rewrite Hv, He.
Qed.

(** Every evaluation method gives the same result and logs the same events
    on two objects with the same settings. *)
Lemma evaluation_same_settings (t t' : vtkWarpTransform D) :
  same_settings t t' ->
  (forall in_place input,
     value_of (InternalTransformPoint in_place input) t
     = value_of (InternalTransformPoint in_place input) t' /\
     events_of (InternalTransformPoint in_place input) t
     = events_of (InternalTransformPoint in_place input) t') /\
  (forall input,
     value_of (InternalTransformPoint_float input) t
     = value_of (InternalTransformPoint_float input) t' /\
     events_of (InternalTransformPoint_float input) t
     = events_of (InternalTransformPoint_float input) t') /\
  (forall input,
     value_of (InternalTransformDerivative input) t
     = value_of (InternalTransformDerivative input) t' /\
     events_of (InternalTransformDerivative input) t
     = events_of (InternalTransformDerivative input) t') /\
  (forall input,
     value_of (InternalTransformDerivative_float input) t
     = value_of (InternalTransformDerivative_float input) t' /\
     events_of (InternalTransformDerivative_float input) t
     = events_of (InternalTransformDerivative_float input) t').
Proof.
  intros Hs.
  pose proof (fun b p => InverseTransformPoint_same_settings b p t t' Hs) as Hd.
  pose proof (fun p => InverseTransformPoint_float_same_settings p t t' Hs) as Hf.
  destruct Hs as (Hm & _).
  repeat split; intros;
    unfold InternalTransformPoint, InternalTransformPoint_float,
      InternalTransformDerivative, InternalTransformDerivative_float;
    run_binds; rewrite !mode_flag, <- Hm; destruct (mode t); trivial;
    try (now apply Hd); try (now apply Hf).
  - now rewrite (proj1 (Hd false input)).
  - now rewrite (proj2 (Hd false input)).
  - now rewrite (proj1 (Hf input)).
  - now rewrite (proj2 (Hf input)).
Qed.

(** C7.  [Inverse()] toggles the mode and touches neither the tolerance,
    the budget nor the log; applied twice it restores the mode, and every
    evaluation method then returns what it returns on the untouched object
    and makes the same calls.  No evaluation method changes the object. *)
Theorem Inverse_twice_restores_mode (w : World F D) :
  let w1 := snd (Inverse w) in
  let w2 := snd (Inverse w1) in
  let t := self w in
  let t2 := self w2 in
  (mode (self w1) = other_mode (mode t) /\
   InverseTolerance (self w1) = InverseTolerance t /\
   InverseIterations (self w1) = InverseIterations t /\
   log w1 = log w) /\
  mode t2 = mode t /\
  (forall in_place input,
     value_of (InternalTransformPoint in_place input) t2
     = value_of (InternalTransformPoint in_place input) t /\
     events_of (InternalTransformPoint in_place input) t2
     = events_of (InternalTransformPoint in_place input) t) /\
  (forall input,
     value_of (InternalTransformPoint_float input) t2
     = value_of (InternalTransformPoint_float input) t /\
     events_of (InternalTransformPoint_float input) t2
     = events_of (InternalTransformPoint_float input) t) /\
  (forall input,
     value_of (InternalTransformDerivative input) t2
     = value_of (InternalTransformDerivative input) t /\
     events_of (InternalTransformDerivative input) t2
     = events_of (InternalTransformDerivative input) t) /\
  (forall input,
     value_of (InternalTransformDerivative_float input) t2
     = value_of (InternalTransformDerivative_float input) t /\
     events_of (InternalTransformDerivative_float input) t2
     = events_of (InternalTransformDerivative_float input) t) /\
  (forall in_place input (w' : World F D),
     self (snd (InternalTransformPoint in_place input w')) = self w' /\
     self (snd (InverseTransformPoint in_place input w')) = self w' /\
     self (snd (InternalTransformDerivative input w')) = self w') /\
  (forall input (w' : World F D),
     self (snd (InternalTransformPoint_float input w')) = self w' /\
     self (snd (InverseTransformPoint_float input w')) = self w' /\
     self (snd (InternalTransformDerivative_float input w')) = self w').
Proof.
  intros w1 w2 t t2.
  pose proof (Inverse_twice_same_settings w) as Hs. fold w1 w2 t2 t in Hs.
  destruct (evaluation_same_settings t2 t Hs) as (H1 & H2 & H3 & H4).
  split; [|split; [exact (proj1 Hs)|]].
  - unfold w1. rewrite Inverse_run. cbn [snd self log InverseTolerance InverseIterations].
    repeat split. now apply mode_lognot.
  - repeat split; try apply H1; try apply H2; try apply H3; try apply H4;
      apply framed_self.
    + apply framed_InternalTransformPoint.
    + apply framed_InverseTransformPoint.
    + apply framed_InternalTransformDerivative.
    + apply framed_InternalTransformPoint_float.
    + apply framed_InverseTransformPoint_float.
    + apply framed_InternalTransformDerivative_float.
Qed.

(** *** The diagnostics *)

Lemma warnings_of_InverseTransformPoint in_place point (t : vtkWarpTransform D) :
  let i := iterations t point in
  let s := final_state t point in
  filter is_warning (events_of (InverseTransformPoint in_place point) t)
  = if i >=? InverseIterations t
    then [EvWarning (if in_place then inverse s else point) (errorSquared s) i]
    else [].
Proof.
  intros i s. rewrite events_of_InverseTransformPoint.
  destruct (solve_spec t point) as (k & _ & _ & -> & _).
  fold i s. rewrite filter_app. cbn [filter is_warning app].
  rewrite (filter_none is_warning is_forward_derivative).
  - now destruct (i >=? InverseIterations t).
  - now intros [].
  - apply loop_events_derivative_only.
Qed.

(** The loop stops at the first iterate that meets the tolerance. *)
Lemma iterations_le_first_within_tolerance (t : vtkWarpTransform D) point k :
  (errorSquared (iterate point k) >? toleranceSquared t)%S = false ->
  iterations t point <= Z.of_nat k.
Proof.
  intros Hk.
  destruct (solve_spec t point) as (k0 & -> & _ & _ & Hbefore & _).
  destruct (Nat.le_gt_cases k0 k) as [Hle|Hgt]; [lia|].
  specialize (Hbefore k Hgt). unfold continues in Hbefore.
  rewrite Hk, andb_false_r in Hbefore. discriminate.
Qed.

(** C10.  The warning is emitted exactly when the loop counter has reached
    the budget, whatever the final error is.  A call that leaves the loop
    before the budget has met the tolerance, and a call some iterate of
    which meets the tolerance before the budget emits no warning. *)
Theorem warning_exactly_when_counter_reaches_budget
  (in_place : bool) (point : Vec3 D) (w : World F D) :
  let t := self w in
  let n := InverseIterations t in
  let i := iterations t point in
  let s := final_state t point in
  let evs := events_of (InverseTransformPoint in_place point) t in
  log (snd (InverseTransformPoint in_place point w)) = log w ++ evs /\
  filter is_warning evs
  = (if i >=? n
     then [EvWarning (if in_place then inverse s else point) (errorSquared s) i]
     else []) /\
  (i < n -> (errorSquared s >? toleranceSquared t)%S = false) /\
  (n <= i -> i = Z.max 0 n) /\
  (forall k : nat,
     Z.of_nat k < n ->
     (errorSquared (iterate point k) >? toleranceSquared t)%S = false ->
     filter is_warning evs = []).
Proof.
  intros t n i s evs.
  pose proof (warnings_of_InverseTransformPoint in_place point t) as Hw.
  cbv zeta in Hw. fold n i s evs in Hw.
  split; [|split; [exact Hw|split; [|split]]].
  - apply framed_log, framed_InverseTransformPoint.
  - apply early_exit_within_tolerance.
  - intros Hge. pose proof (iterations_bounds t point) as Hb.
    fold i n in Hb. lia.
  - intros k Hk Htol. rewrite Hw.
    pose proof (iterations_le_first_within_tolerance t point k Htol) as Hle.
    fold i in Hle. destruct (Z.geb_spec i n); [lia | reflexivity].
Qed.

(** *** One iteration, and the backtracking branch *)

Lemma clamp_fraction_bounds {so : ScalarOrder D} (f : D) :
  (clamp_fraction f <? lit_0_1)%S = false /\
  (clamp_fraction f >? lit_0_5)%S = false.
Proof.
  unfold clamp_fraction.
  destruct (sltb f lit_0_1) eqn:Hlow.
  - rewrite tenth_below_half. split; [apply sltb_irrefl | apply tenth_below_half].
  - destruct (sltb lit_0_5 f) eqn:Hhigh.
    + split; [apply tenth_below_half | apply sltb_irrefl].
    + split; assumption.
Qed.

Lemma clamp_fraction_cases {so : ScalarOrder D} (x : D) :
  clamp_fraction x
  = if (x <? lit_0_1)%S then lit_0_1
    else if (x >? lit_0_5)%S then lit_0_5 else x.
Proof.
  unfold clamp_fraction. destruct (sltb x lit_0_1); [|reflexivity].
  now rewrite tenth_below_half.
Qed.

(** C5, as the code has it.  When the full Newton step strictly increases
    the squared error, the iteration accepts [lastInverse - f*deltaI] and
    evaluates this one corrected candidate and nothing more.  [f] is the
    quadratic-model fraction [d/(2*(new - prev - d))], built from the
    diagonal gradient, after the two tests: 0.1 when the fraction is below
    0.1, 0.5 when it is above 0.5, the fraction itself otherwise.  So [f]
    is never below 0.1 nor above 0.5, and [0.1 <= f <= 0.5] whenever the
    fraction is not a NaN. *)
Theorem backtracking_accepts_one_clamped_fraction {so : ScalarOrder D}
  {cmp : ScalarCompare D}
  (point : Vec3 D) (s : IterState D) (w : World F D) :
  let lastInverse := inverse s in
  let deltaI := LinearSolve3x3 (derivative s) (deltaP s) in
  let candidate := mkVec3 (c0 lastInverse - c0 deltaI)%S
                          (c1 lastInverse - c1 deltaI)%S
                          (c2 lastInverse - c2 deltaI)%S in
  let r1 := ForwardTransformDerivative candidate in
  let deltaP1 := mkVec3 (c0 (fst r1) - c0 point)%S
                        (c1 (fst r1) - c1 point)%S
                        (c2 (fst r1) - c2 point)%S in
  let errorSquared1 := (c0 deltaP1 * c0 deltaP1 + c1 deltaP1 * c1 deltaP1
                        + c2 deltaP1 * c2 deltaP1)%S in
  let d := (c0 (deltaP s) * c0 (c0 (derivative s)) * lit_2 * c0 deltaI
            + c1 (deltaP s) * c1 (c1 (derivative s)) * lit_2 * c1 deltaI
            + c2 (deltaP s) * c2 (c2 (derivative s)) * lit_2 * c2 deltaI)%S in
  let raw := (d / (lit_2 * (errorSquared1 - errorSquared s - d)))%S in
  let f := if (raw <? lit_0_1)%S then lit_0_1
           else if (raw >? lit_0_5)%S then lit_0_5 else raw in
  let corrected := mkVec3 (c0 lastInverse - f * c0 deltaI)%S
                          (c1 lastInverse - f * c1 deltaI)%S
                          (c2 lastInverse - f * c2 deltaI)%S in
  let r2 := ForwardTransformDerivative corrected in
  let deltaP2 := mkVec3 (c0 (fst r2) - c0 point)%S
                        (c1 (fst r2) - c1 point)%S
                        (c2 (fst r2) - c2 point)%S in
  let errorSquared2 := (c0 deltaP2 * c0 deltaP2 + c1 deltaP2 * c1 deltaP2
                        + c2 deltaP2 * c2 deltaP2)%S in
  (errorSquared1 >? errorSquared s)%S = true ->
  newton_iteration point s w
  = (mkIter corrected deltaP2 (snd r2) errorSquared2,
     mkWorld (self w)
       (log w ++ [EvForwardDerivative candidate;
                  EvForwardDerivative corrected])) /\
  inverse (fst (newton_iteration point s w)) = corrected /\
  (f <? lit_0_1)%S = false /\ (f >? lit_0_5)%S = false /\
  (unordered raw = false -> sleb lit_0_1 f = true /\ sleb f lit_0_5 = true).
Proof.
  intros lastInverse deltaI candidate r1 deltaP1 errorSquared1 d raw f
    corrected r2 deltaP2 errorSquared2 Hworse.
  assert (Hf : clamp_fraction raw = f) by apply clamp_fraction_cases.
  assert (Hrun : newton_iteration point s w
                 = (mkIter corrected deltaP2 (snd r2) errorSquared2,
                    mkWorld (self w)
                      (log w ++ [EvForwardDerivative candidate;
                                 EvForwardDerivative corrected]))).
  { rewrite newton_iteration_run.
    unfold newton_step, iteration_events.
    change (errorSquared
              (state_at point
                 (full_step (inverse s)
                    (LinearSolve3x3 (derivative s) (deltaP s)))))
      with errorSquared1.
    rewrite Hworse.
    change (backtrack_candidate s
              (LinearSolve3x3 (derivative s) (deltaP s)) errorSquared1)
      with (fractional_step lastInverse deltaI (clamp_fraction raw)).
    rewrite Hf. reflexivity. }
  split; [exact Hrun|]. split; [now rewrite Hrun|].
  rewrite <- Hf.
  split; [apply clamp_fraction_bounds|].
  split; [apply clamp_fraction_bounds|].
  rewrite Hf. intros Hraw. unfold f.
  pose proof (le_of_not_lt lit_0_1 lit_0_1 tenth_ordered tenth_ordered
                (sltb_irrefl lit_0_1)) as Htenth.
  pose proof (le_of_not_lt lit_0_5 lit_0_5 half_ordered half_ordered
                (sltb_irrefl lit_0_5)) as Hhalf.
  destruct (sltb raw lit_0_1) eqn:Hlow.
  - split; [exact Htenth | exact tenth_le_half].
  - destruct (sltb lit_0_5 raw) eqn:Hhigh.
    + split; [exact tenth_le_half | exact Hhalf].
    + split.
      * apply le_of_not_lt; [exact Hraw | exact tenth_ordered | exact Hlow].
      * apply le_of_not_lt; [exact half_ordered | exact Hraw | exact Hhigh].
Qed.

(** C3, as the code has it.  Over an iteration whose full Newton step does
    not increase the squared error, the recorded error does not increase;
    otherwise the recorded error is that of the single backtracked
    candidate, which is accepted without being compared. *)
Theorem recorded_error_after_iteration (point : Vec3 D) (k : nat) :
  let s := iterate point k in
  let deltaI := LinearSolve3x3 (derivative s) (deltaP s) in
  let full := state_at point (full_step (inverse s) deltaI) in
  if (errorSquared full >? errorSquared s)%S
  then iterate point (S k)
       = state_at point (backtrack_candidate s deltaI (errorSquared full))
  else iterate point (S k) = full /\
       (errorSquared (iterate point (S k)) >? errorSquared s)%S = false.
Proof.
  intros s deltaI full.
  change (iterate point (S k)) with (newton_step point s).
  unfold newton_step. fold deltaI full.
  destruct (sltb (errorSquared s) (errorSquared full)) eqn:Hworse.
  - reflexivity.
  - now split.
Qed.

(** C4, as the code has it.  A call that uses up its budget without
    meeting the tolerance still returns: its result is the candidate of the
    last iteration, and after the solver's calls to the forward evaluator
    the log holds the debug line and one warning, with the loop counter and
    the last squared error. *)
Theorem exhausted_call_returns_last_candidate
  (in_place : bool) (point : Vec3 D) (w : World F D) :
  let t := self w in
  let n := InverseIterations t in
  let i := iterations t point in
  let last := iterate point (Z.to_nat i) in
  n <= i ->
  (errorSquared (final_state t point) >? toleranceSquared t)%S = true ->
  i = Z.max 0 n /\
  InverseTransformPoint in_place point w
  = (inverse last,
     mkWorld t
       (log w ++ events_of (InverseTransformPoint_solve point) t
              ++ [EvDebug (i + 1);
                  EvWarning (if in_place then inverse last else point)
                            (errorSquared last) i])) /\
  Forall (fun e => is_forward_point e || is_forward_derivative e = true)
         (events_of (InverseTransformPoint_solve point) t).
Proof.
  intros t n i last Hge _.
  split; [|split].
  - pose proof (iterations_bounds t point) as Hb. fold i n in Hb. lia.
  - rewrite InverseTransformPoint_run. fold t i n.
    rewrite final_state_iterate. fold i last.
    destruct (Z.geb_spec i n); [reflexivity | lia].
  - destruct (solve_spec t point) as (k & _ & _ & -> & _).
    constructor; [reflexivity|]. constructor; [reflexivity|].
    eapply Forall_impl; [|apply loop_events_derivative_only].
    intros e He. cbv beta in He. rewrite He. apply orb_true_r.
Qed.

(** *** A seed that already meets the tolerance *)

Lemma no_iteration_when_seed_within_tolerance (t : vtkWarpTransform D) point :
  (errorSquared (iterate point 0) >? toleranceSquared t)%S = false ->
  iterations t point = 0 /\ final_state t point = iterate point 0 /\
  events_of (InverseTransformPoint_solve point) t
  = [EvForwardPoint point; EvForwardDerivative (seed point)].
Proof.
  intros Htol.
  destruct (solve_spec t point) as (k & Hi & Hs & Hev & Hbefore & _).
  assert (k = O) as ->; [|now repeat split].
  destruct k as [|k]; [reflexivity|].
  specialize (Hbefore O (Nat.lt_0_succ k)).
  unfold continues in Hbefore.
  rewrite Htol, andb_false_r in Hbefore. discriminate.
Qed.

End Properties.

(* ================================================================== *)
(** ** Properties that hold in exact arithmetic *)

Section Exact.
Context {F D : Type} {sc : Scalar D} {pr : Precision F D}
        {fw : WarpForward F D} {vm : vtkMath F D} {ex : ExactScalar D}.

Add Ring exact_scalar_ring : exact_ring.

Lemma reflect_component (a p : D) :
  (a - lit_2 * (a - p))%S = (p - (a - p))%S /\
  (a - lit_2 * (a - p))%S = (lit_2 * p - a)%S.
Proof. rewrite exact_two. split; ring. Qed.

Lemma filter_forward_point_loop point k (s : IterState D) :
  filter is_forward_point (loop_events (F := F) point s k) = [].
Proof.
  apply (filter_none is_forward_point is_forward_derivative).
  - now intros [].
  - apply loop_events_derivative_only.
Qed.

Lemma zero_error (p : Vec3 D) : sum_squares (vsub p p) = szero.
Proof. unfold sum_squares, vsub; cbn [c0 c1 c2]. ring. Qed.

Lemma reflect_fixed (p : Vec3 D) : first_guess p p = p.
Proof.
  destruct p as [a b c]. unfold first_guess; cbn [c0 c1 c2].
  rewrite exact_two. f_equal; ring.
Qed.

End Exact.

(* ================================================================== *)
(** ** The seed *)

Section Seed.
Context {F D : Type} {sc : Scalar D} {pr : Precision F D}
        {fw : WarpForward F D} {vm : vtkMath F D}.

(** C6, as the code has it.  The first candidate is
    [F(P) - 2*(F(P) - P)], computed in this order in each coordinate; the
    loop starts from it.  Getting it takes the one call of
    [ForwardTransformPoint], which opens the log and is the only one of the
    whole call.  In exact arithmetic the candidate is the forward image of
    the target reflected through the target,
    [P - (F(P) - P) = 2*P - F(P)]. *)
Theorem first_candidate_is_reflection (point : Vec3 D)
  (t : vtkWarpTransform D) :
  let fwd := ForwardTransformPoint point in
  let first := mkVec3 (c0 fwd - lit_2 * (c0 fwd - c0 point))%S
                      (c1 fwd - lit_2 * (c1 fwd - c1 point))%S
                      (c2 fwd - lit_2 * (c2 fwd - c2 point))%S in
  let evs := events_of (InverseTransformPoint_solve point) t in
  inverse (iterate point 0) = first /\
  firstn 2 evs = [EvForwardPoint point; EvForwardDerivative first] /\
  filter is_forward_point evs = [EvForwardPoint point] /\
  (forall ex : ExactScalar D,
     first = mkVec3 (c0 point - (c0 fwd - c0 point))%S
                    (c1 point - (c1 fwd - c1 point))%S
                    (c2 point - (c2 fwd - c2 point))%S /\
     first = mkVec3 (lit_2 * c0 point - c0 fwd)%S
                    (lit_2 * c1 point - c1 fwd)%S
                    (lit_2 * c2 point - c2 fwd)%S).
Proof.
  intros fwd first evs.
  assert (Hevs : evs = EvForwardPoint point
                       :: EvForwardDerivative first
                       :: loop_events point (iterate point 0)
                            (Z.to_nat (iterations t point))).
  { unfold evs. destruct (solve_spec t point) as (k & -> & _ & -> & _).
    now rewrite Nat2Z.id. }
  split; [reflexivity|]. split; [now rewrite Hevs|]. split.
  - rewrite Hevs. cbn [filter is_forward_point].
    rewrite (filter_none is_forward_point is_forward_derivative);
      [reflexivity | now intros [] | apply loop_events_derivative_only].
  - intros ex. unfold first. split.
    + now rewrite !(proj1 (reflect_component _ _)).
    + now rewrite !(proj2 (reflect_component _ _)).
Qed.

(** C9, as the code has it.  For a warp that maps every point to itself
    and a target with finite coordinates (any target, in exact arithmetic)
    the solver returns the target exactly and runs no Newton iteration: the
    seed is the target and its error is zero, so the loop test fails at
    once.  The counter is 0, and the debug line prints [i + 1 = 1]. *)
Theorem identity_warp_needs_no_iteration {sa : SeedArithmetic D}
  (forward_id : forall p, ForwardTransformPoint p = p)
  (derivative_id : forall p, fst (ForwardTransformDerivative p) = p)
  (in_place : bool) (point : Vec3 D) (w : World F D) :
  let t := self w in
  finite_value (c0 point) = true ->
  finite_value (c1 point) = true ->
  finite_value (c2 point) = true ->
  fst (InverseTransformPoint in_place point w) = point /\
  iterations t point = 0 /\
  events_of (InverseTransformPoint in_place point) t
  = [EvForwardPoint point; EvForwardDerivative point; EvDebug 1]
    ++ (if 0 >=? InverseIterations t
        then [EvWarning point czero 0] else []).
Proof.
  intros t H0 H1 H2.
  assert (Hseed : seed point = point).
  { unfold seed. rewrite forward_id. destruct point as [a b c].
    cbn [c0 c1 c2] in H0, H1, H2. unfold first_guess; cbn [c0 c1 c2].
    rewrite !sub_self by assumption. rewrite two_times_zero.
    now rewrite !sub_zero by assumption. }
  assert (Hit : iterate point 0
                = mkIter point (vsub point point)
                         (snd (ForwardTransformDerivative point)) czero).
  { unfold iterate; cbn [Nat.iter]. rewrite Hseed.
    unfold state_at, candidate_state. rewrite derivative_id.
    unfold sum_squares, vsub; cbn [c0 c1 c2 fst].
    rewrite !sub_self by assumption. now rewrite zero_sum_squares. }
  destruct (no_iteration_when_seed_within_tolerance t point)
    as (Hi & Hs & Hev).
  { rewrite Hit. apply zero_not_above_square. }
  split; [|split; [exact Hi|]].
  - rewrite InverseTransformPoint_run. cbn [fst]. fold t.
    now rewrite Hs, Hit.
  - rewrite events_of_InverseTransformPoint, Hev, Hi, Hs, Hit, Hseed.
    cbn [inverse errorSquared app Z.add].
    now destruct in_place.
Qed.

End Seed.

(** Exact arithmetic has the seed laws at every value. *)
Section ExactSeed.
Context {D : Type} {sc : Scalar D} (ex : ExactScalar D).

Add Ring exact_seed_ring : exact_ring.

Lemma exact_sub_self (a : D) : (a - a)%S = szero.
Proof. ring. Qed.

Lemma exact_two_times_zero : (lit_2 * szero)%S = szero.
Proof. ring. Qed.

Lemma exact_sub_zero (a : D) : (a - szero)%S = a.
Proof. ring. Qed.

Lemma exact_zero_sum_squares :
  (szero * szero + szero * szero + szero * szero)%S = szero.
Proof. ring. Qed.

Definition exact_SeedArithmetic : SeedArithmetic D := {|
  czero := szero;
  finite_value := fun _ => true;
  sub_self := fun a _ => exact_sub_self a;
  two_times_zero := exact_two_times_zero;
  sub_zero := fun a _ => exact_sub_zero a;
  zero_sum_squares := exact_zero_sum_squares;
  zero_not_above_square := square_nonneg
|}.

End ExactSeed.

(* ================================================================== *)
(** ** The narrow-precision overloads *)

Section Facade.
Context {F D : Type} {sc : Scalar D} {pr : Precision F D}
        {fw : WarpForward F D} {vm : vtkMath F D}.

Lemma InverseTransformPoint_float_run (input : Vec3 F) (w : World F D) :
  InverseTransformPoint_float input w
  = convert_compute_convert (InverseTransformPoint true) input w.
Proof.
  unfold InverseTransformPoint_float, convert_compute_convert, bind, ret.
  now destruct (InverseTransformPoint true (vmap to_double input) w).
Qed.

(** C8, as the code has it.  [InverseTransformPoint(float)] converts to
    [double], runs the [double] solver and converts back, and in inverse
    mode so do [InternalTransformPoint(float)] and the point returned by
    [InternalTransformDerivative(float)].  The Jacobian of the latter comes
    from the [float] overloads of [ForwardTransformDerivative] and
    [Invert3x3], and in forward mode both methods hand the input to the
    [float] overload of the forward evaluator. *)
Theorem narrow_precision_paths (input : Vec3 F) (w : World F D) :
  let t := self w in
  InverseTransformPoint_float input w
  = convert_compute_convert (InverseTransformPoint true) input w /\
  match mode t with
  | InverseMode =>
      InternalTransformPoint_float input w
      = convert_compute_convert (InternalTransformPoint true) input w /\
      fst (fst (InternalTransformDerivative_float input w))
      = fst (fst (convert_compute_convert_derivative
                    InternalTransformDerivative input w)) /\
      snd (fst (InternalTransformDerivative_float input w))
      = Invert3x3_float (snd (ForwardTransformDerivative_float input))
  | Forward =>
      InternalTransformPoint_float input w
      = call_ForwardTransformPoint_float input w /\
      InternalTransformDerivative_float input w
      = call_ForwardTransformDerivative_float input w
  end.
Proof.
  intros t. split; [apply InverseTransformPoint_float_run|].
  unfold InternalTransformPoint_float, InternalTransformDerivative_float,
    convert_compute_convert, convert_compute_convert_derivative,
    InternalTransformPoint, InternalTransformDerivative.
  rewrite !bind_member. fold t. rewrite (mode_flag t).
  destruct (mode t); [split; reflexivity|].
  split; [|split].
  - rewrite InverseTransformPoint_float_run. reflexivity.
  - unfold bind at 1.
    replace (call_ForwardTransformDerivative_float input w)
      with (ForwardTransformDerivative_float input,
            mkWorld (self w) (log w ++ [EvForwardDerivative_float input]))
      by reflexivity.
    unfold bind at 1.
    rewrite (framed_InverseTransformPoint_float input (mkWorld _ _)).
    unfold bind at 1. rewrite call_ForwardTransformDerivative_run.
    unfold bind at 1.
    rewrite (framed_InverseTransformPoint false _ (mkWorld _ _)).
    cbn [fst snd self ret].
    now rewrite value_of_InverseTransformPoint_float,
      value_of_InverseTransformPoint.
  - unfold bind at 1.
    replace (call_ForwardTransformDerivative_float input w)
      with (ForwardTransformDerivative_float input,
            mkWorld (self w) (log w ++ [EvForwardDerivative_float input]))
      by reflexivity.
    unfold bind at 1.
    rewrite (framed_InverseTransformPoint_float input (mkWorld _ _)).
    reflexivity.
Qed.

End Facade.

(* ================================================================== *)
(** ** The laws in the two arithmetics *)

Lemma SFltb_irrefl (x : spec_float) : SFltb x x = false.
Proof.
  unfold SFltb, SFcompare.
  destruct x as [[]|[]| |[] m e]; try reflexivity;
    rewrite Z.compare_refl, Pos.compare_cont_refl; reflexivity.
Qed.

#[export] Instance double_ScalarOrder : ScalarOrder double.
Proof.
  split.
  - intros [a]. apply SFltb_irrefl.
  - vm_compute. reflexivity.
Qed.

Lemma Qc_square_nonneg (a : Qc) : Qc_ltb (a * a) (Q2Qc 0) = false.
Proof.
  unfold Qc_ltb.
  destruct (a * a ?= Q2Qc 0)%Qc eqn:Hc; try reflexivity.
  apply Qclt_alt in Hc. exfalso. revert Hc. apply Qcle_not_lt.
  change (0 <= Qred (this a * this a))%Q. rewrite Qred_correct.
  destruct (this a) as [n d]. unfold Qle, Qmult; cbn. nia.
Qed.

#[export] Instance Qc_ScalarOrder : ScalarOrder Qc.
Proof. split; [intros a; unfold sltb; cbn; unfold Qc_ltb|reflexivity].
  destruct (a ?= a)%Qc eqn:Hc; try reflexivity.
  apply Qclt_alt in Hc. now apply Qclt_not_eq in Hc.
Qed.

Definition Qc_ExactScalar : ExactScalar Qc := {|
  szero := Q2Qc 0;
  sone := 1%Qc;
  sopp := Qcopp;
  exact_ring := Qcrt;
  exact_two := Qc_is_canon (Q2Qc 2) (1 + 1)%Qc (eq_refl : (2 == 2)%Q);
  square_nonneg := Qc_square_nonneg
|}.

(* ================================================================== *)
(** ** The identity warp in binary64 *)

Lemma double_sub_self (x : double) :
  finite64 x = true -> (x - x)%S = double_of_Z 0.
Proof.
  destruct x as [[[]|[]| |s m e]]; try discriminate; try reflexivity.
  intros _. cbv [ssub double_Scalar double_op double_bits SFsub].
  now rewrite Z.sub_diag.
Qed.

Lemma double_sub_zero (x : double) :
  finite64 x = true -> (x - double_of_Z 0)%S = x.
Proof.
  destruct x as [[[]|[]| |s m e]]; try discriminate; reflexivity.
Qed.

Lemma binary_round_aux_sign prec emax sx mx ex lx :
  match binary_round_aux prec emax sx mx ex lx with
  | S754_zero s | S754_infinity s | S754_finite s _ _ => s = sx
  | S754_nan => True
  end.
Proof.
  unfold binary_round_aux.
  destruct (shr_fexp prec emax mx ex lx) as [mrs' e'].
  destruct (shr_fexp prec emax _ e' loc_Exact) as [mrs2 e2].
  destruct (shr_m mrs2); trivial.
  now destruct (Z.leb e2 (Z.sub emax prec)).
Qed.

Lemma double_square_not_negative (x : double) :
  (x * x <? double_of_Z 0)%S = false.
Proof.
  destruct x as [[[]|[]| |s m e]]; try reflexivity.
  cbv [smul sltb double_Scalar double_op double_bits SFmul double_of_Z
       binary_normalize].
  pose proof (binary_round_aux_sign 53 1024 (xorb s s)
                (Zpos (Pos.mul m m)) (Z.add e e) loc_Exact) as Hs.
  rewrite xorb_nilpotent in *.
  destruct (binary_round_aux 53 1024 false _ _ loc_Exact) as [z|z| |z mz ez];
    try subst z; reflexivity.
Qed.

Lemma double_reflect_fixed (p : Vec3 double) :
  finite64_point p = true -> first_guess p p = p.
Proof.
  destruct p as [a b c]. unfold finite64_point; cbn [c0 c1 c2].
  intros H. apply andb_prop in H as [H Hc]. apply andb_prop in H as [Ha Hb].
  unfold first_guess; cbn [c0 c1 c2].
  rewrite !double_sub_self by assumption.
  change (lit_2 * double_of_Z 0)%S with (double_of_Z 0).
  now rewrite !double_sub_zero.
Qed.

Lemma double_zero_error (p : Vec3 double) :
  finite64_point p = true -> sum_squares (vsub p p) = double_of_Z 0.
Proof.
  destruct p as [a b c]. unfold finite64_point; cbn [c0 c1 c2].
  intros H. apply andb_prop in H as [H Hc]. apply andb_prop in H as [Ha Hb].
  unfold sum_squares, vsub; cbn [c0 c1 c2].
  rewrite !double_sub_self by assumption. reflexivity.
Qed.

(** The identity warp in the arithmetic the compiled code runs on: for a
    target with finite coordinates the seed is the target, bit for bit, its
    squared error is [+0], and no tolerance, not even a NaN, lets the loop
    start. *)
Theorem identity_warp_binary64 {fw : WarpForward float double}
  {vm : vtkMath float double}
  (forward_id : forall p, ForwardTransformPoint p = p)
  (derivative_id : forall p, fst (ForwardTransformDerivative p) = p)
  (in_place : bool) (point : Vec3 double) (w : World float double) :
  finite64_point point = true ->
  fst (InverseTransformPoint in_place point w) = point /\
  iterations (self w) point = 0.
Proof.
  intros Hfin.
  assert (Hseed : seed point = point).
  { unfold seed. rewrite forward_id. now apply double_reflect_fixed. }
  assert (H0 : iterate point 0
               = mkIter point (vsub point point)
                        (snd (ForwardTransformDerivative point))
                        (double_of_Z 0)).
  { unfold iterate; cbn [Nat.iter]. rewrite Hseed.
    unfold state_at, candidate_state. rewrite derivative_id.
    now rewrite double_zero_error. }
  destruct (no_iteration_when_seed_within_tolerance (self w) point)
    as (Hi & Hs & _).
  { rewrite H0. apply double_square_not_negative. }
  split; [|exact Hi].
  rewrite InverseTransformPoint_run. cbn [fst].
  now rewrite Hs, H0.
Qed.

(** Binary64 has the seed laws at the finite values. *)
#[export] Instance double_SeedArithmetic : SeedArithmetic double := {|
  czero := double_of_Z 0;
  finite_value := finite64;
  sub_self := double_sub_self;
  two_times_zero := eq_refl;
  sub_zero := double_sub_zero;
  zero_sum_squares := eq_refl;
  zero_not_above_square := double_square_not_negative
|}.

#[export] Instance Qc_SeedArithmetic : SeedArithmetic Qc :=
  exact_SeedArithmetic Qc_ExactScalar.

(* ================================================================== *)
(** ** The comparisons in the two arithmetics *)

Lemma SFcompare_antisym (x y : spec_float) :
  SFcompare y x = option_map CompOpp (SFcompare x y).
Proof.
  destruct x as [[]|[]| |[] m1 e1], y as [[]|[]| |[] m2 e2];
    try reflexivity; cbn [SFcompare option_map];
    rewrite (Z.compare_antisym e1 e2);
    destruct (e1 ?= e2)%Z; cbn [CompOpp]; try reflexivity;
    rewrite (Pos.compare_cont_antisym m1 m2 Eq); cbn [CompOpp];
    try reflexivity; now rewrite CompOpp_involutive.
Qed.

Lemma SFcompare_ordered (x y : spec_float) :
  x <> S754_nan -> y <> S754_nan -> exists c, SFcompare x y = Some c.
Proof.
  intros Hx Hy.
  destruct x as [[]|[]| |[] mx ex], y as [[]|[]| |[] my ey];
    try congruence; cbn [SFcompare]; eauto.
Qed.

Lemma double_le_of_not_lt (a b : double) :
  is_nan64 a = false -> is_nan64 b = false ->
  (a <? b)%S = false -> double_leb b a = true.
Proof.
  destruct a as [x], b as [y].
  unfold is_nan64, double_leb, sltb; cbn [double_Scalar double_bits].
  intros Hx Hy.
  destruct (SFcompare_ordered x y) as [c Hc].
  - intros ->. discriminate Hx.
  - intros ->. discriminate Hy.
  - unfold SFltb, SFleb. rewrite (SFcompare_antisym x y), Hc.
    now destruct c.
Qed.

#[export] Instance double_ScalarCompare : ScalarCompare double := {|
  sleb := double_leb;
  unordered := is_nan64;
  le_of_not_lt := double_le_of_not_lt;
  tenth_ordered := eq_refl;
  half_ordered := eq_refl;
  tenth_le_half := eq_refl
|}.

Lemma Qc_le_of_not_lt (a b : Qc) :
  false = false -> false = false ->
  (a <? b)%S = false -> Qc_leb b a = true.
Proof.
  intros _ _. unfold sltb; cbn [Qc_Scalar]. unfold Qc_ltb, Qc_leb, Qccompare.
  rewrite <- (Qcompare_antisym (this a) (this b)).
  now destruct (this a ?= this b)%Q.
Qed.

#[export] Instance Qc_ScalarCompare : ScalarCompare Qc := {|
  sleb := Qc_leb;
  unordered := fun _ => false;
  le_of_not_lt := Qc_le_of_not_lt;
  tenth_ordered := eq_refl;
  half_ordered := eq_refl;
  tenth_le_half := eq_refl
|}.

(* ================================================================== *)
(** ** Concrete runs *)

(** The cubic warp at the target [(1,0,0)]: the seed is [x = 0] with
    squared error 4, the first iteration moves to [x = 1] with squared
    error 1, the second overshoots back to [x = 0], backtracks with
    [f = 0.5] to [x = 1/2] and records the squared error [81/64]. *)
Example cubic_run_errors :
  let P : Vec3 double := point_of 1 0 0 in
  map (fun k => errorSquared (iterate (fw := cubic64) (vm := math64) P k))
      [0%nat; 1%nat; 2%nat]
  = [double_lit 4 1; double_lit 1 1; double_lit 81 64] /\
  map (fun k => inverse (iterate (fw := cubic64) (vm := math64) P k))
      [0%nat; 1%nat; 2%nat]
  = [point_of 0 0 0; point_of 1 0 0;
     mkVec3 (double_lit 1 2) (of_Z 0) (of_Z 0)].
Proof. vm_compute. split; reflexivity. Qed.


(** C3 as stated fails: on the cubic warp, with the default tolerance and
    budget, the error recorded after the second iteration is above the one
    recorded after the first. *)
Lemma cubic_errors_increase :
  ~ errors_never_increase (F := float) (fw := cubic64) (vm := math64)
      vtkWarpTransform_new (point_of 1 0 0).
Proof.
  intros H. specialize (H 1%nat).
  assert (Hle : Z.of_nat 2
                <= iterations (F := float) (fw := cubic64) (vm := math64)
                     vtkWarpTransform_new (point_of 1 0 0))
    by (vm_compute; discriminate).
  specialize (H Hle). vm_compute in H. discriminate H.
Qed.

(** C4 as stated fails: with a budget of two iterations the call on the
    cubic warp ends without meeting the tolerance and returns [x = 1/2],
    whose squared error [81/64] is above the error [1] of the candidate
    [x = 1] of the first iteration. *)
Lemma cubic_result_is_not_best :
  let t : vtkWarpTransform double := with_budget 2 in
  let P : Vec3 double := point_of 1 0 0 in
  InverseIterations t
    <= iterations (F := float) (fw := cubic64) (vm := math64) t P /\
  (errorSquared (final_state (F := float) (fw := cubic64) (vm := math64) t P)
     >? toleranceSquared t)%S = true /\
  ~ returns_best_candidate (F := float) (fw := cubic64) (vm := math64) t P.
Proof.
  split; [vm_compute; discriminate|]. split; [vm_compute; reflexivity|].
  intros H. specialize (H false 1%nat).
  assert (Hle : Z.of_nat 1
                <= iterations (F := float) (fw := cubic64) (vm := math64)
                     (with_budget 2) (point_of 1 0 0))
    by (vm_compute; discriminate).
  destruct (H Hle) as [_ Hbest]. vm_compute in Hbest. discriminate Hbest.
Qed.

(** The witness of C4: the same call. *)
Lemma cubic_exhausted_call :
  let t : vtkWarpTransform double := with_budget 2 in
  let P : Vec3 double := point_of 1 0 0 in
  InverseTransformPoint (fw := cubic64) (vm := math64) false P
    (fresh (F := float) t)
  = (mkVec3 (double_lit 1 2) (of_Z 0) (of_Z 0),
     mkWorld t
       [EvForwardPoint P;
        EvForwardDerivative (point_of 0 0 0);
        EvForwardDerivative (point_of 1 0 0);
        EvForwardDerivative (point_of 0 0 0);
        EvForwardDerivative (mkVec3 (double_lit 1 2) (of_Z 0) (of_Z 0));
        EvDebug 3;
        EvWarning P (double_lit 81 64) 2]).
Proof.
  intros t P.
  destruct (exhausted_call_returns_last_candidate
              (fw := cubic64) (vm := math64) false P (fresh (F := float) t))
    as (_ & Hrun & _).
  - vm_compute. discriminate.
  - vm_compute. reflexivity.
  - rewrite Hrun. vm_compute. reflexivity.
Defined.

(** C5 as stated fails in binary64: on the steep warp, with [s = 3 * 2^510],
    the target [(0,0,0)] has the finite seed [x = -2s] with the finite
    squared error [s^2] and the Jacobian entry [-1/2].  The full step lands
    on [x = 0], whose squared error [4 s^2] overflows to [+inf], and so does
    the slope [2 s^2].  The fraction is [inf / (2 * (inf - s^2 - inf))], a
    NaN, which neither test changes: [0.1 <= f <= 0.5] is false, and the
    accepted candidate is NaN in every coordinate. *)
Lemma steep_fraction_is_nan :
  let P : Vec3 double := point_of 0 0 0 in
  let s := iterate (fw := steep64) (vm := math64) P 0 in
  let deltaI := LinearSolve3x3 (vtkMath := math64) (derivative s) (deltaP s) in
  let full := state_at (fw := steep64) P (full_step (inverse s) deltaI) in
  let f := clamp_fraction
             (raw_fraction (errorSquared full) (errorSquared s)
                (error_slope s deltaI)) in
  let accepted :=
    inverse (fst (newton_iteration (fw := steep64) (vm := math64) P s
                    (fresh (F := float) vtkWarpTransform_new))) in
  (inverse s = point_of (- 2 * steep_scale) 0 0 /\
   finite64 (errorSquared s) = true /\
   finite64_point deltaI = true) /\
  (errorSquared full >? errorSquared s)%S = true /\
  accepted = fractional_step (inverse s) deltaI f /\
  is_nan64 f = true /\
  is_nan64 (c0 accepted) && is_nan64 (c1 accepted) && is_nan64 (c2 accepted)
    = true /\
  ~ (double_leb lit_0_1 f = true /\ double_leb f lit_0_5 = true).
Proof.
  vm_compute.
  repeat split; try reflexivity.
  intros [H _]. discriminate H.
Qed.

(** The witness of C5: the second, third and fourth iterations of the call
    on the cubic warp at [(1,0,0)].  The fractions are [1], cut to [0.5];
    a negative one, raised to [0.1]; and one near [0.139], kept. *)
Lemma cubic_backtracking_steps :
  let P : Vec3 double := point_of 1 0 0 in
  let s (k : nat) := iterate (fw := cubic64) (vm := math64) P k in
  let deltaI (k : nat) :=
    LinearSolve3x3 (vtkMath := math64) (derivative (s k)) (deltaP (s k)) in
  let raw (k : nat) :=
    raw_fraction
      (errorSquared
         (state_at (fw := cubic64) P (full_step (inverse (s k)) (deltaI k))))
      (errorSquared (s k)) (error_slope (s k) (deltaI k)) in
  let accepted (k : nat) :=
    inverse (fst (newton_iteration (fw := cubic64) (vm := math64) P (s k)
                    (fresh (F := float) vtkWarpTransform_new))) in
  ((raw 1%nat >? lit_0_5)%S = true /\
   accepted 1%nat
   = fractional_step (inverse (s 1%nat)) (deltaI 1%nat) lit_0_5) /\
  ((raw 2%nat <? lit_0_1)%S = true /\
   accepted 2%nat
   = fractional_step (inverse (s 2%nat)) (deltaI 2%nat) lit_0_1) /\
  (raw 3%nat = mkDouble (S754_finite false 5013671689521500 (-55)) /\
   (raw 3%nat <? lit_0_1)%S = false /\ (raw 3%nat >? lit_0_5)%S = false /\
   accepted 3%nat
   = fractional_step (inverse (s 3%nat)) (deltaI 3%nat) (raw 3%nat) /\
   double_leb lit_0_1 (raw 3%nat) = true /\
   double_leb (raw 3%nat) lit_0_5 = true).
Proof.
  intros P s deltaI raw accepted.
  split; [|split].
  - destruct (backtracking_accepts_one_clamped_fraction
                (fw := cubic64) (vm := math64) P (s 1%nat)
                (fresh (F := float) vtkWarpTransform_new))
      as (_ & Hinv & _).
    + vm_compute. reflexivity.
    + split; [vm_compute; reflexivity|].
      unfold accepted. rewrite Hinv. vm_compute. reflexivity.
  - destruct (backtracking_accepts_one_clamped_fraction
                (fw := cubic64) (vm := math64) P (s 2%nat)
                (fresh (F := float) vtkWarpTransform_new))
      as (_ & Hinv & _).
    + vm_compute. reflexivity.
    + split; [vm_compute; reflexivity|].
      unfold accepted. rewrite Hinv. vm_compute. reflexivity.
  - destruct (backtracking_accepts_one_clamped_fraction
                (fw := cubic64) (vm := math64) P (s 3%nat)
                (fresh (F := float) vtkWarpTransform_new))
      as (_ & Hinv & _ & _ & Hle).
    + vm_compute. reflexivity.
    + destruct Hle as [Hlow Hhigh]; [vm_compute; reflexivity|].
      split; [vm_compute; reflexivity|].
      split; [vm_compute; reflexivity|].
      split; [vm_compute; reflexivity|].
      split; [unfold accepted; rewrite Hinv; vm_compute; reflexivity|].
      split; [vm_compute in Hlow |- *; exact Hlow
             |vm_compute in Hhigh |- *; exact Hhigh].
Defined.

(** C6 as stated fails in binary64: on the cubic warp at the target
    [(0.3, 0.25, -7)] the first coordinate of the seed, of [P - (F(P) - P)]
    and of [2*P - F(P)] are three consecutive numbers near [-1.827]. *)
Lemma rounded_seed_is_not_the_reflection :
  let P : Vec3 double :=
    mkVec3 (double_lit 3 10) (double_lit 1 4) (of_Z (-7)) in
  let fwd := ForwardTransformPoint (WarpForward := cubic64) P in
  let first := inverse (iterate (fw := cubic64) (vm := math64) P 0) in
  first = first_guess P fwd /\
  c0 first = mkDouble (S754_finite true 8228076519205898 (-52)) /\
  c0 (vsub P (vsub fwd P))
  = mkDouble (S754_finite true 8228076519205897 (-52)) /\
  c0 (vsub (vmap (smul lit_2) P) fwd)
  = mkDouble (S754_finite true 8228076519205896 (-52)) /\
  first <> vsub P (vsub fwd P) /\
  first <> vsub (vmap (smul lit_2) P) fwd.
Proof.
  vm_compute.
  repeat split; try reflexivity; intros H; discriminate H.
Qed.

(** The witness of C6: the same target in binary64, and the target
    [(1,0,0)] in exact arithmetic, where the seed is the reflection. *)
Lemma cubic_first_candidates :
  (let P : Vec3 double :=
     mkVec3 (double_lit 3 10) (double_lit 1 4) (of_Z (-7)) in
   let fwd := ForwardTransformPoint (WarpForward := cubic64) P in
   let first := mkVec3 (c0 fwd - lit_2 * (c0 fwd - c0 P))%S
                       (c1 fwd - lit_2 * (c1 fwd - c1 P))%S
                       (c2 fwd - lit_2 * (c2 fwd - c2 P))%S in
   inverse (iterate (fw := cubic64) (vm := math64) P 0) = first /\
   firstn 2 (events_of (F := float)
               (InverseTransformPoint_solve (fw := cubic64) (vm := math64) P)
               vtkWarpTransform_new)
   = [EvForwardPoint P; EvForwardDerivative first]) /\
  (let P : Vec3 Qc := point_of 1 0 0 in
   let fwd := ForwardTransformPoint (WarpForward := cubicQ) P in
   first_guess P fwd = vsub P (vsub fwd P) /\
   first_guess P fwd = vsub (vmap (smul lit_2) P) fwd).
Proof.
  split.
  - intros P fwd first.
    destruct (first_candidate_is_reflection
                (fw := cubic64) (vm := math64) P vtkWarpTransform_new)
      as (H1 & H2 & _).
    split; [exact H1 | exact H2].
  - intros P fwd.
    destruct (first_candidate_is_reflection
                (F := Qc) (fw := cubicQ) (vm := mathQ)
                P vtkWarpTransform_new) as (_ & _ & _ & Hexact).
    destruct (Hexact Qc_ExactScalar) as [H1 H2].
    split; [exact H1 | exact H2].
Defined.

(** C8 as stated fails in forward mode: at [x = 257] the [float] overload
    of the cubic warp rounds [x^3 = 16974593] to [16974592] and returns
    [16974080], while converting to [double], evaluating there and
    converting back returns [16974082]. *)
Lemma float_forward_is_not_double_forward :
  let input : Vec3 float := point_of 257 0 0 in
  let w : World float double := fresh vtkWarpTransform_new in
  fst (InternalTransformPoint_float (fw := cubic64) (vm := math64) input w)
    = point_of 16974080 0 0 /\
  fst (convert_compute_convert
         (InternalTransformPoint (fw := cubic64) (vm := math64) true) input w)
    = point_of 16974082 0 0 /\
  InternalTransformPoint_float (fw := cubic64) (vm := math64) input w
  <> convert_compute_convert
       (InternalTransformPoint (fw := cubic64) (vm := math64) true) input w.
Proof.
  split; [vm_compute; reflexivity|]. split; [vm_compute; reflexivity|].
  vm_compute. intros H. discriminate H.
Qed.

(** C9 as stated fails: on the identity warp the call returns the target
    with the loop counter at 0, not 1. *)
Lemma identity_call_runs_no_iteration :
  let t : vtkWarpTransform double := vtkWarpTransform_new in
  let P : Vec3 double := point_of 1 2 3 in
  iterations (F := float) (fw := identity64) (vm := math64) t P = 0 /\
  ~ (value_of (F := float)
       (InverseTransformPoint (fw := identity64) (vm := math64) false P) t = P /\
     iterations (F := float) (fw := identity64) (vm := math64) t P = 1).
Proof.
  split; [vm_compute; reflexivity|].
  intros [_ H]. vm_compute in H. discriminate H.
Qed.

(** The witness of C9: a target of binary64 that is not an integer, and a
    target in exact arithmetic. *)
Lemma identity_calls_run_no_iteration :
  (let P : Vec3 double :=
     mkVec3 (double_lit 1 3) (double_lit (-7) 10) (of_Z 0) in
   let w : World float double := fresh vtkWarpTransform_new in
   fst (InverseTransformPoint (fw := identity64) (vm := math64) true P w) = P /\
   iterations (F := float) (fw := identity64) (vm := math64) (self w) P = 0 /\
   events_of (F := float)
     (InverseTransformPoint (fw := identity64) (vm := math64) true P) (self w)
   = [EvForwardPoint P; EvForwardDerivative P; EvDebug 1]) /\
  (let P : Vec3 Qc := point_of 1 2 3 in
   let w : World Qc Qc := fresh vtkWarpTransform_new in
   fst (InverseTransformPoint (fw := identityQ) (vm := mathQ) false P w) = P /\
   iterations (F := Qc) (fw := identityQ) (vm := mathQ) (self w) P = 0).
Proof.
  split.
  - intros P w.
    destruct (identity_warp_needs_no_iteration
                (fw := identity64) (vm := math64)
                (fun p => eq_refl) (fun p => eq_refl) true P w)
      as (H1 & H2 & H3); try reflexivity.
    split; [exact H1|]. split; [exact H2|]. exact H3.
  - intros P w.
    destruct (identity_warp_needs_no_iteration
                (F := Qc) (fw := identityQ) (vm := mathQ)
                (fun p => eq_refl) (fun p => eq_refl) false P w)
      as (H1 & H2 & _); try reflexivity.
    split; [exact H1 | exact H2].
Defined.

(** Why the targets are finite: at [(+inf, 0, 0)] the seed of the identity
    warp is [inf - 2 * (inf - inf)], a NaN, and the call returns it. *)
Example identity_at_infinity :
  let P : Vec3 double :=
    mkVec3 (mkDouble (S754_infinity false)) (of_Z 0) (of_Z 0) in
  let output :=
    fst (InverseTransformPoint (fw := identity64) (vm := math64) false P
           (fresh (F := float) vtkWarpTransform_new)) in
  is_nan64 (c0 output) = true /\ output <> P.
Proof. vm_compute. split; [reflexivity | intros H; discriminate H]. Qed.

(** The case C10 singles out: with a budget of one iteration the scale
    [X -> 2X] reaches the exact inverse in that iteration, and the call
    still warns. *)
Example scale_budget_one_warns :
  let t : vtkWarpTransform double := with_budget 1 in
  let P : Vec3 double := point_of 4 2 6 in
  InverseTransformPoint (fw := scale64) (vm := math64) false P
    (fresh (F := float) t)
  = (point_of 2 1 3,
     mkWorld t [EvForwardPoint P;
                EvForwardDerivative (point_of 0 0 0);
                EvForwardDerivative (point_of 2 1 3);
                EvDebug 2;
                EvWarning P (of_Z 0) 1]).
Proof. vm_compute. reflexivity. Qed.

(** The identity warp in binary64, at a target that is not an integer. *)
Example identity_binary64_run :
  let P : Vec3 double := mkVec3 (double_lit 1 3) (double_lit (-7) 10) (of_Z 0) in
  fst (InverseTransformPoint (fw := identity64) (vm := math64) true P
         (fresh (F := float) vtkWarpTransform_new)) = P.
Proof.
  intros P.
  apply (identity_warp_binary64 (fw := identity64) (vm := math64)
           (fun p => eq_refl) (fun p => eq_refl) true P).
  reflexivity.
Qed.

(** The cubic run of [cubic_run_errors] in exact arithmetic: the same
    candidates and the same errors, so none of them is an effect of
    rounding. *)
Example cubic_run_errors_exact :
  let P : Vec3 Qc := point_of 1 0 0 in
  map (fun k => this (errorSquared
                        (iterate (fw := cubicQ) (vm := mathQ) P k)))
      [0%nat; 1%nat; 2%nat]
  = [4; 1; 81 # 64]%Q /\
  map (fun k => this (c0 (inverse (iterate (fw := cubicQ) (vm := mathQ) P k))))
      [0%nat; 1%nat; 2%nat]
  = [0; 1; 1 # 2]%Q.
Proof. vm_compute. split; reflexivity. Qed.

(* ================================================================== *)
(** ** Further properties of the solver and of the dispatch *)

Section Further.
Context {F D : Type} {sc : Scalar D} {pr : Precision F D}
        {fw : WarpForward F D} {vm : vtkMath F D}.

Lemma filter_all {A : Type} (q : A -> bool) (l : list A) :
  Forall (fun a => q a = true) l -> filter q l = l.
Proof.
  intros Hl. induction Hl as [|a l Ha _ IH]; simpl; [reflexivity|].
  now rewrite Ha, IH.
Qed.

Lemma iteration_events_length point (s : IterState D) :
  (1 <= length (iteration_events (F := F) point s) <= 2)%nat.
Proof.
  unfold iteration_events. destruct (sltb _ _); simpl; lia.
Qed.

Lemma loop_events_length point :
  forall k (s : IterState D),
    (k <= length (loop_events (F := F) point s k) <= 2 * k)%nat.
Proof.
  induction k as [|k IH]; intros s; cbn [loop_events]; [simpl; lia|].
  rewrite length_app.
  pose proof (iteration_events_length point s).
  pose proof (IH (newton_step point s)). lia.
Qed.

(** The log of a call, spelled out. *)
Lemma events_of_call in_place point (t : vtkWarpTransform D) :
  exists k : nat,
    iterations t point = Z.of_nat k /\
    events_of (InverseTransformPoint in_place point) t
    = EvForwardPoint point :: EvForwardDerivative (seed point)
        :: loop_events point (iterate point 0) k
        ++ EvDebug (Z.of_nat k + 1)
        :: (if Z.of_nat k >=? InverseIterations t
            then [EvWarning (if in_place then inverse (final_state t point)
                             else point)
                            (errorSquared (final_state t point)) (Z.of_nat k)]
            else []).
Proof.
  destruct (solve_spec t point) as (k & Hi & _ & Hev & _).
  exists k. split; [exact Hi|].
  now rewrite events_of_InverseTransformPoint, Hev, Hi.
Qed.

(** X1.  The work of a call is bounded by the budget: the loop counter
    ends between 0 and the budget, [ForwardTransformPoint] is called once,
    [ForwardTransformDerivative] once for the seed and once or twice per
    iteration, the debug line is written once and at most one warning. *)
Theorem solver_work_is_bounded (in_place : bool) (point : Vec3 D)
  (t : vtkWarpTransform D) :
  let i := iterations t point in
  let evs := events_of (InverseTransformPoint in_place point) t in
  0 <= i <= Z.max 0 (InverseIterations t) /\
  filter is_forward_point evs = [EvForwardPoint point] /\
  (Z.to_nat i + 1 <= length (filter is_forward_derivative evs)
   <= 2 * Z.to_nat i + 1)%nat /\
  filter is_debug evs = [EvDebug (i + 1)] /\
  (length (filter is_warning evs) <= 1)%nat.
Proof.
  intros i evs.
  split; [apply iterations_bounds|].
  destruct (events_of_call in_place point t) as (k & Hi & Hev).
  unfold evs, i. rewrite Hev, Hi, Nat2Z.id. clear Hev.
  set (warn := if Z.of_nat k >=? InverseIterations t then _ else _).
  assert (Hwarn : filter is_forward_point warn = []
                  /\ filter is_forward_derivative warn = []
                  /\ filter is_debug warn = []
                  /\ (length (filter is_warning warn) <= 1)%nat).
  { unfold warn. destruct (Z.of_nat k >=? InverseIterations t); simpl;
      repeat split; lia. }
  destruct Hwarn as (Hw1 & Hw2 & Hw3 & Hw4).
  pose proof (loop_events_derivative_only point k (iterate point 0)) as Hall.
  repeat split.
  - cbn [filter is_forward_point]. rewrite filter_app.
    cbn [filter is_forward_point]. rewrite Hw1, app_nil_r.
    rewrite (filter_none is_forward_point is_forward_derivative);
      [reflexivity | now intros [] | exact Hall].
  - cbn [filter is_forward_point is_forward_derivative]. rewrite filter_app.
    cbn [filter is_forward_derivative]. rewrite Hw2, app_nil_r.
    rewrite (filter_all _ _ Hall). cbn [length].
    pose proof (loop_events_length point k (iterate point 0)). lia.
  - cbn [filter is_forward_point is_forward_derivative]. rewrite filter_app.
    cbn [filter is_forward_derivative]. rewrite Hw2, app_nil_r.
    rewrite (filter_all _ _ Hall). cbn [length].
    pose proof (loop_events_length point k (iterate point 0)). lia.
  - cbn [filter is_debug]. rewrite filter_app.
    cbn [filter is_debug]. rewrite Hw3.
    rewrite (filter_none is_debug is_forward_derivative);
      [reflexivity | now intros [] | exact Hall].
  - cbn [filter is_warning]. rewrite filter_app.
    cbn [filter is_warning].
    rewrite (filter_none is_warning is_forward_derivative);
      [exact Hw4 | now intros [] | exact Hall].
Qed.

(** X2.  With a budget of zero or less the call runs no iteration and
    returns the seed [F(P) - 2*(F(P) - P)] as it is; it warns in every
    case, whether or not the seed meets the tolerance. *)
Theorem nonpositive_budget_returns_seed (in_place : bool) (point : Vec3 D)
  (w : World F D) :
  let first := first_guess point (ForwardTransformPoint point) in
  InverseIterations (self w) <= 0 ->
  InverseTransformPoint in_place point w
  = (first,
     mkWorld (self w)
       (log w ++ [EvForwardPoint point; EvForwardDerivative first;
                  EvDebug 1;
                  EvWarning (if in_place then first else point)
                            (errorSquared (state_at point first)) 0])).
Proof.
  intros first Hn.
  pose proof (iterations_bounds (self w) point) as Hb.
  assert (Hi : iterations (self w) point = 0) by lia.
  destruct (solve_spec (self w) point) as (k & Hk & Hs & Hev & _).
  assert (k = O) as -> by lia.
  rewrite InverseTransformPoint_run, Hev, Hs, Hi.
  change (iterate point 0) with (state_at point first).
  cbn [loop_events inverse state_at candidate_state Z.add].
  destruct (Z.geb_spec 0 (InverseIterations (self w))); [|lia].
  reflexivity.
Qed.

End Further.

(** *** What the methods read from the object *)

Ltac framed_goal :=
  repeat first
    [ apply framed_ret | apply framed_emit | apply framed_member
    | apply framed_call_ForwardTransformPoint
    | apply framed_call_ForwardTransformDerivative
    | apply framed_call_ForwardTransformPoint_float
    | apply framed_call_ForwardTransformDerivative_float
    | apply framed_InverseTransformPoint
    | apply framed_InverseTransformPoint_float
    | apply framed_if | apply framed_bind | intro ].

Ltac unfold_binds :=
  repeat (first [ rewrite value_of_bind by framed_goal
                | rewrite events_of_bind by framed_goal
                | rewrite value_of_member | rewrite events_of_member
                | rewrite value_of_if | rewrite events_of_if
                | rewrite value_of_ret | rewrite events_of_ret ]).

Section Reads.
Context {F D : Type} {sc : Scalar D} {pr : Precision F D}
        {fw : WarpForward F D} {vm : vtkMath F D}.

(** The solver reads the budget and the square of the tolerance, and
    nothing else. *)
Lemma solve_reads point (t t' : vtkWarpTransform D) :
  toleranceSquared t = toleranceSquared t' ->
  InverseIterations t = InverseIterations t' ->
  value_of (InverseTransformPoint_solve point) t
  = value_of (InverseTransformPoint_solve point) t' /\
  events_of (InverseTransformPoint_solve point) t
  = events_of (InverseTransformPoint_solve point) t'.
Proof.
  intros Htol Hn.
  unfold value_of, events_of, InverseTransformPoint_solve, bind, member.
  rewrite !call_ForwardTransformPoint_run, !evaluate_candidate_run.
  simpl self; simpl log.
  change (InverseTolerance t * InverseTolerance t)%S with (toleranceSquared t).
  change (InverseTolerance t' * InverseTolerance t')%S
    with (toleranceSquared t').
  rewrite <- Htol, <- Hn.
  set (n := InverseIterations t). set (tol2 := toleranceSquared t).
  set (s0 := state_at point _).
  rewrite !framed_fst, !framed_log by apply framed_newton_loop.
  cbn [self log].
  destruct (newton_loop_any_object n tol2 point (Z.to_nat n) 0 s0 t t')
    as [-> ->].
  split; reflexivity.
Qed.

Lemma InverseTransformPoint_reads in_place point (t t' : vtkWarpTransform D) :
  toleranceSquared t = toleranceSquared t' ->
  InverseIterations t = InverseIterations t' ->
  value_of (InverseTransformPoint in_place point) t
  = value_of (InverseTransformPoint in_place point) t' /\
  events_of (InverseTransformPoint in_place point) t
  = events_of (InverseTransformPoint in_place point) t'.
Proof.
  intros Htol Hn. destruct (solve_reads point t t' Htol Hn) as [Hv He].
  rewrite !value_of_InverseTransformPoint, !events_of_InverseTransformPoint.
  unfold final_state, iterations. rewrite Hv, He, Hn. split; reflexivity.
Qed.

Lemma InverseTransformPoint_float_reads point (t t' : vtkWarpTransform D) :
  toleranceSquared t = toleranceSquared t' ->
  InverseIterations t = InverseIterations t' ->
  value_of (InverseTransformPoint_float point) t
  = value_of (InverseTransformPoint_float point) t' /\
  events_of (InverseTransformPoint_float point) t
  = events_of (InverseTransformPoint_float point) t'.
Proof.
  intros Htol Hn.
  destruct (InverseTransformPoint_reads true (vmap to_double point) t t'
              Htol Hn) as [Hv He].
  unfold InverseTransformPoint_float. unfold_binds. now rewrite Hv, He.
Qed.

(** X3.  [InverseTransformPoint] always inverts: it never reads the mode
    flag.  On two objects with the same tolerance and the same budget both
    overloads return the same point and log the same calls and
    diagnostics, whatever the two mode flags are. *)
Theorem inverse_solver_ignores_mode (t t' : vtkWarpTransform D) :
  InverseTolerance t = InverseTolerance t' ->
  InverseIterations t = InverseIterations t' ->
  (forall in_place point,
     value_of (InverseTransformPoint in_place point) t
     = value_of (InverseTransformPoint in_place point) t' /\
     events_of (InverseTransformPoint in_place point) t
     = events_of (InverseTransformPoint in_place point) t') /\
  (forall point,
     value_of (InverseTransformPoint_float point) t
     = value_of (InverseTransformPoint_float point) t' /\
     events_of (InverseTransformPoint_float point) t
     = events_of (InverseTransformPoint_float point) t').
Proof.
  intros Htol Hn.
  assert (Htol2 : toleranceSquared t = toleranceSquared t')
    by (unfold toleranceSquared; now rewrite Htol).
  split; intros.
  - now apply InverseTransformPoint_reads.
  - now apply InverseTransformPoint_float_reads.
Qed.

(** The four dispatching methods read the mode besides. *)
Lemma evaluation_reads (t t' : vtkWarpTransform D) :
  mode t = mode t' ->
  toleranceSquared t = toleranceSquared t' ->
  InverseIterations t = InverseIterations t' ->
  (forall in_place input,
     value_of (InternalTransformPoint in_place input) t
     = value_of (InternalTransformPoint in_place input) t' /\
     events_of (InternalTransformPoint in_place input) t
     = events_of (InternalTransformPoint in_place input) t') /\
  (forall input,
     value_of (InternalTransformPoint_float input) t
     = value_of (InternalTransformPoint_float input) t' /\
     events_of (InternalTransformPoint_float input) t
     = events_of (InternalTransformPoint_float input) t') /\
  (forall input,
     value_of (InternalTransformDerivative input) t
     = value_of (InternalTransformDerivative input) t' /\
     events_of (InternalTransformDerivative input) t
     = events_of (InternalTransformDerivative input) t') /\
  (forall input,
     value_of (InternalTransformDerivative_float input) t
     = value_of (InternalTransformDerivative_float input) t' /\
     events_of (InternalTransformDerivative_float input) t
     = events_of (InternalTransformDerivative_float input) t').
Proof.
  intros Hm Htol Hn.
  pose proof (fun b p => InverseTransformPoint_reads b p t t' Htol Hn) as Hd.
  pose proof (fun p => InverseTransformPoint_float_reads p t t' Htol Hn) as Hf.
  repeat split; intros;
    unfold InternalTransformPoint, InternalTransformPoint_float,
      InternalTransformDerivative, InternalTransformDerivative_float;
    unfold_binds; rewrite !mode_flag, <- Hm; destruct (mode t); trivial;
    try (now apply Hd); try (now apply Hf).
  - now rewrite (proj1 (Hd false input)).
  - now rewrite (proj2 (Hd false input)).
  - now rewrite (proj1 (Hf input)).
  - now rewrite (proj2 (Hf input)).
Qed.

End Reads.

(* ================================================================== *)
(** ** Further properties in exact arithmetic *)

Section FurtherExact.
Context {F D : Type} {sc : Scalar D} {pr : Precision F D}
        {fw : WarpForward F D} {vm : vtkMath F D} {ex : ExactScalar D}.

Add Ring further_exact_ring : exact_ring.

(** X4.  Only the square of the tolerance is used: an object whose
    tolerance is negated returns the same results and logs the same calls
    and diagnostics, in every evaluation method. *)
Theorem tolerance_sign_is_irrelevant (t : vtkWarpTransform D) :
  let t' := mkWarp (InverseFlag t) (sopp (InverseTolerance t))
                   (InverseIterations t) (MTime t) in
  (forall in_place point,
     value_of (InverseTransformPoint in_place point) t'
     = value_of (InverseTransformPoint in_place point) t /\
     events_of (InverseTransformPoint in_place point) t'
     = events_of (InverseTransformPoint in_place point) t) /\
  (forall in_place input,
     value_of (InternalTransformPoint in_place input) t'
     = value_of (InternalTransformPoint in_place input) t /\
     events_of (InternalTransformPoint in_place input) t'
     = events_of (InternalTransformPoint in_place input) t) /\
  (forall input,
     value_of (InternalTransformPoint_float input) t'
     = value_of (InternalTransformPoint_float input) t /\
     events_of (InternalTransformPoint_float input) t'
     = events_of (InternalTransformPoint_float input) t) /\
  (forall input,
     value_of (InternalTransformDerivative input) t'
     = value_of (InternalTransformDerivative input) t /\
     events_of (InternalTransformDerivative input) t'
     = events_of (InternalTransformDerivative input) t) /\
  (forall input,
     value_of (InternalTransformDerivative_float input) t'
     = value_of (InternalTransformDerivative_float input) t /\
     events_of (InternalTransformDerivative_float input) t'
     = events_of (InternalTransformDerivative_float input) t).
Proof.
  intros t'.
  assert (Htol : toleranceSquared t' = toleranceSquared t).
  { unfold toleranceSquared, t'. cbn [InverseTolerance]. ring. }
  assert (Hn : InverseIterations t' = InverseIterations t) by reflexivity.
  assert (Hm : mode t' = mode t) by reflexivity.
  split; [intros; now apply InverseTransformPoint_reads|].
  exact (evaluation_reads t' t Hm Htol Hn).
Qed.

(** X5.  A translation is inverted by the seed alone: for
    [Forward(X) = X + d] the first guess is [P - d], its error is zero, and
    the call returns it without a Newton iteration. *)
Theorem translation_is_inverted_by_the_seed (d : Vec3 D)
  (forward_translates : forall p, ForwardTransformPoint p = vadd p d)
  (derivative_translates : forall p,
     fst (ForwardTransformDerivative p) = vadd p d)
  (in_place : bool) (point : Vec3 D) (w : World F D) :
  fst (InverseTransformPoint in_place point w) = vsub point d /\
  iterations (self w) point = 0 /\
  ForwardTransformPoint (vsub point d) = point.
Proof.
  assert (Hback : vadd (vsub point d) d = point).
  { destruct point as [a b c]. unfold vadd, vsub; cbn [c0 c1 c2].
    f_equal; ring. }
  assert (Hseed : seed point = vsub point d).
  { unfold seed. rewrite forward_translates.
    unfold first_guess, vadd, vsub; cbn [c0 c1 c2].
    rewrite exact_two. f_equal; ring. }
  assert (H0 : iterate point 0
               = mkIter (vsub point d) (vsub point point)
                        (snd (ForwardTransformDerivative (vsub point d)))
                        szero).
  { unfold iterate; cbn [Nat.iter]. rewrite Hseed.
    unfold state_at, candidate_state.
    rewrite derivative_translates, Hback. now rewrite zero_error. }
  destruct (no_iteration_when_seed_within_tolerance (self w) point)
    as (Hi & Hs & _).
  { rewrite H0. apply square_nonneg. }
  split; [|split; [exact Hi|]].
  - rewrite InverseTransformPoint_run. cbn [fst]. now rewrite Hs, H0.
  - now rewrite forward_translates.
Qed.

Lemma dot_full_step (r x delta : Vec3 D) :
  dot r (full_step x delta) = (dot r x - dot r delta)%S.
Proof. unfold dot, full_step; cbn [c0 c1 c2]. ring. Qed.

(** One Newton step on an affine warp lands on the exact inverse. *)
Lemma affine_step {eo : ExactOrder D} (A : Mat3 D) (b : Vec3 D)
  (affine : forall p, ForwardTransformDerivative p = (vadd (matvec A p) b, A))
  (solves : forall rhs, matvec A (LinearSolve3x3 A rhs) = rhs)
  (point x : Vec3 D) :
  let s' := newton_step point (state_at point x) in
  vadd (matvec A (inverse s')) b = point /\ errorSquared s' = szero.
Proof.
  set (s := state_at point x).
  set (delta := LinearSolve3x3 (derivative s) (deltaP s)).
  assert (HA : derivative s = A) by (unfold s, state_at; now rewrite affine).
  assert (HdP : deltaP s = vsub (vadd (matvec A x) b) point)
    by (unfold s, state_at; now rewrite affine).
  assert (Hsol : matvec A delta = vsub (vadd (matvec A x) b) point).
  { unfold delta. rewrite HA, HdP. apply solves. }
  assert (Himage : vadd (matvec A (full_step x delta)) b = point).
  { pose proof (f_equal c0 Hsol) as E0. pose proof (f_equal c1 Hsol) as E1.
    pose proof (f_equal c2 Hsol) as E2.
    unfold matvec, vadd, vsub in E0, E1, E2. cbn [c0 c1 c2] in E0, E1, E2.
    destruct point as [p0 p1 p2]. unfold matvec, vadd; cbn [c0 c1 c2].
    rewrite !dot_full_step, E0, E1, E2. cbn [c0 c1 c2]. f_equal; ring. }
  assert (Hfull : full_step_state point s
                  = mkIter (full_step x delta) (vsub point point) A szero).
  { unfold full_step_state. fold delta.
    change (inverse s) with x.
    unfold state_at, candidate_state. rewrite affine. cbn [fst snd].
    now rewrite Himage, zero_error. }
  intros s'.
  assert (Hs' : s' = full_step_state point s).
  { unfold s', newton_step. fold s delta.
    change (state_at point (full_step (inverse s) delta))
      with (full_step_state point s).
    rewrite Hfull. cbn [errorSquared].
    unfold s, state_at, candidate_state. cbn [errorSquared].
    unfold sum_squares. now rewrite sum_squares_nonneg. }
  rewrite Hs', Hfull. cbn [inverse errorSquared]. now split.
Qed.

(** X6.  On an affine warp [Forward(X) = A*X + b], with a solver that
    solves the systems of [A], a call runs at most one Newton iteration;
    when it runs one, the returned point is the exact inverse and the
    recorded error is zero.  With a budget of at least one the call ends
    within tolerance. *)
Theorem affine_warp_takes_one_iteration {eo : ExactOrder D}
  (A : Mat3 D) (b : Vec3 D)
  (affine : forall p, ForwardTransformDerivative p = (vadd (matvec A p) b, A))
  (solves : forall rhs, matvec A (LinearSolve3x3 A rhs) = rhs)
  (in_place : bool) (point : Vec3 D) (w : World F D) :
  let t := self w in
  let output := fst (InverseTransformPoint in_place point w) in
  iterations t point <= 1 /\
  (iterations t point = 1 ->
   vadd (matvec A output) b = point /\
   errorSquared (final_state t point) = szero) /\
  (0 < InverseIterations t ->
   (errorSquared (final_state t point) >? toleranceSquared t)%S = false).
Proof.
  intros t output.
  destruct (affine_step A b affine solves point (seed point))
    as [Himage Hzero].
  change (newton_step point (state_at point (seed point)))
    with (iterate point 1) in Himage, Hzero.
  assert (Hle : iterations t point <= 1).
  { apply (iterations_le_first_within_tolerance t point 1).
    rewrite Hzero. apply square_nonneg. }
  assert (Hone : iterations t point = 1 ->
                 vadd (matvec A output) b = point /\
                 errorSquared (final_state t point) = szero).
  { intros H1. unfold output. rewrite InverseTransformPoint_run. cbn [fst].
    fold t. rewrite final_state_iterate, H1. now split. }
  split; [exact Hle|]. split; [exact Hone|].
  intros Hn. pose proof (iterations_bounds t point) as Hb.
  destruct (Z.eq_dec (iterations t point) 1) as [H1|H1].
  - rewrite (proj2 (Hone H1)). apply square_nonneg.
  - apply early_exit_within_tolerance. lia.
Qed.

End FurtherExact.

(* ================================================================== *)
(** ** Further properties of the dispatch *)

Section FurtherDispatch.
Context {F D : Type} {sc : Scalar D} {pr : Precision F D}
        {fw : WarpForward F D} {vm : vtkMath F D}.

(** X7.  The two entry points agree on the point.  In inverse mode
    [InternalTransformDerivative] returns the point [InternalTransformPoint]
    returns, in both precisions; in forward mode it does as soon as the two
    forward evaluators agree on the transformed point. *)
Theorem derivative_entry_returns_same_point (in_place : bool)
  (input : Vec3 D) (input_f : Vec3 F) (w : World F D) :
  match mode (self w) with
  | InverseMode =>
      fst (fst (InternalTransformDerivative input w))
      = fst (InternalTransformPoint in_place input w) /\
      fst (fst (InternalTransformDerivative_float input_f w))
      = fst (InternalTransformPoint_float input_f w)
  | Forward =>
      ((forall p, fst (ForwardTransformDerivative p) = ForwardTransformPoint p) ->
       fst (fst (InternalTransformDerivative input w))
       = fst (InternalTransformPoint in_place input w)) /\
      ((forall p, fst (ForwardTransformDerivative_float p)
                  = ForwardTransformPoint_float p) ->
       fst (fst (InternalTransformDerivative_float input_f w))
       = fst (InternalTransformPoint_float input_f w))
  end.
Proof.
  rewrite (framed_fst (InternalTransformDerivative input) w)
    by apply framed_InternalTransformDerivative.
  rewrite (framed_fst (InternalTransformPoint in_place input) w)
    by apply framed_InternalTransformPoint.
  rewrite (framed_fst (InternalTransformDerivative_float input_f) w)
    by apply framed_InternalTransformDerivative_float.
  rewrite (framed_fst (InternalTransformPoint_float input_f) w)
    by apply framed_InternalTransformPoint_float.
  unfold InternalTransformPoint, InternalTransformPoint_float,
    InternalTransformDerivative, InternalTransformDerivative_float.
  unfold_binds. rewrite !mode_flag.
  destruct (mode (self w)).
  - split; intros consistent; apply consistent.
  - unfold_binds. cbn [fst].
    rewrite !value_of_InverseTransformPoint. split; reflexivity.
Qed.

(** X8.  The solver works in [double] only.  No [double] method calls a
    [float] overload of the forward evaluator, nor does
    [InverseTransformPoint(float)]; in inverse mode
    [InternalTransformPoint(float)] calls none either, and
    [InternalTransformDerivative(float)] calls one, once, at the input. *)
Theorem solver_never_calls_float_overloads (t : vtkWarpTransform D) :
  (forall in_place point,
     filter is_float_call (events_of (InverseTransformPoint in_place point) t)
     = []) /\
  (forall point,
     filter is_float_call (events_of (InverseTransformPoint_float point) t)
     = []) /\
  (forall in_place input,
     filter is_float_call (events_of (InternalTransformPoint in_place input) t)
     = []) /\
  (forall input,
     filter is_float_call (events_of (InternalTransformDerivative input) t)
     = []) /\
  (mode t = InverseMode ->
   (forall input,
      filter is_float_call (events_of (InternalTransformPoint_float input) t)
      = []) /\
   (forall input,
      filter is_float_call
        (events_of (InternalTransformDerivative_float input) t)
      = [EvForwardDerivative_float input])).
Proof.
  assert (Hd : forall in_place point,
             filter is_float_call
               (events_of (InverseTransformPoint in_place point) t) = []).
  { intros in_place point.
    destruct (events_of_call in_place point t) as (k & _ & ->).
    cbn [filter is_float_call]. rewrite filter_app. cbn [filter is_float_call].
    rewrite (filter_none is_float_call is_forward_derivative);
      [| now intros [] | apply loop_events_derivative_only].
    now destruct (Z.of_nat k >=? InverseIterations t). }
  assert (Hf : forall point,
             filter is_float_call
               (events_of (InverseTransformPoint_float point) t) = []).
  { intros point. unfold InverseTransformPoint_float. unfold_binds.
    rewrite app_nil_r. apply Hd. }
  split; [exact Hd|]. split; [exact Hf|].
  split; [|split].
  - intros in_place input. unfold InternalTransformPoint. unfold_binds.
    destruct (negb (InverseFlag t =? 0)); [apply Hd | reflexivity].
  - intros input. unfold InternalTransformDerivative. unfold_binds.
    destruct (negb (InverseFlag t =? 0)); [|reflexivity].
    unfold_binds. cbn [app]. rewrite app_nil_r, filter_app, Hd.
    reflexivity.
  - intros Hmode. split; intros input.
    + unfold InternalTransformPoint_float. unfold_binds.
      rewrite mode_flag, Hmode. apply Hf.
    + unfold InternalTransformDerivative_float. unfold_binds.
      rewrite mode_flag, Hmode. unfold_binds. cbn [app].
      rewrite app_nil_r, filter_app, Hf. reflexivity.
Qed.

(** X9.  [InverseTransformPoint(float)] runs the [double] solver in place
    on its local copy, so when the counter reaches the budget its warning
    prints the coordinates of the result; the [double] overload called
    with separate arrays prints the target. *)
Theorem float_warning_reports_the_result (input : Vec3 F)
  (t : vtkWarpTransform D) :
  let P := vmap to_double input in
  let i := iterations t P in
  let s := final_state t P in
  InverseIterations t <= i ->
  filter is_warning (events_of (InverseTransformPoint_float input) t)
  = [EvWarning (inverse s) (errorSquared s) i] /\
  value_of (InverseTransformPoint_float input) t = vmap to_float (inverse s) /\
  filter is_warning (events_of (InverseTransformPoint false P) t)
  = [EvWarning P (errorSquared s) i].
Proof.
  intros P i s Hge.
  assert (Hgeb : (i >=? InverseIterations t) = true)
    by (destruct (Z.geb_spec i (InverseIterations t)); [reflexivity | lia]).
  split; [|split].
  - unfold InverseTransformPoint_float. unfold_binds. rewrite app_nil_r.
    rewrite warnings_of_InverseTransformPoint. fold P i s. now rewrite Hgeb.
  - apply value_of_InverseTransformPoint_float.
  - rewrite warnings_of_InverseTransformPoint. fold i s. now rewrite Hgeb.
Qed.

(** *** Repeated calls of [Inverse()] *)

Lemma Inverse_times_succ k (w : World F D) :
  Inverse_times (S k) w = Inverse_times k (snd (Inverse w)).
Proof. reflexivity. Qed.

(** X10.  After [k] calls of [Inverse()] the mode is the original one when
    [k] is even and the other one when [k] is odd; tolerance, budget and
    log are untouched, and after the first call the flag is 0 or 1. *)
Theorem Inverse_times_parity (k : nat) (w : World F D) :
  let w' := snd (Inverse_times k w) in
  mode (self w')
  = (if Nat.even k then mode (self w) else other_mode (mode (self w))) /\
  InverseTolerance (self w') = InverseTolerance (self w) /\
  InverseIterations (self w') = InverseIterations (self w) /\
  log w' = log w /\
  ((0 < k)%nat -> InverseFlag (self w') = 0 \/ InverseFlag (self w') = 1).
Proof.
  revert w. induction k as [|k IH]; intros w.
  - cbn. repeat split. intros H. inversion H.
  - cbv zeta. rewrite Inverse_times_succ.
    destruct (IH (snd (Inverse w))) as (Hm & Htol & Hn & Hlog & Hflag).
    rewrite Hm, Htol, Hn, Hlog. rewrite Inverse_run.
    cbn [snd self log InverseTolerance InverseIterations].
    rewrite (mode_lognot (self w) _ _ _ _ eq_refl).
    rewrite Nat.even_succ, <- Nat.negb_even.
    repeat split.
    + destruct (Nat.even k); [reflexivity | apply other_mode_involutive].
    + intros _. destruct k as [|k]; [|apply Hflag; lia].
      cbn. unfold lognot. destruct (InverseFlag (self w) =? 0); auto.
Qed.

End FurtherDispatch.

(* ================================================================== *)
(** ** When no iteration backtracks *)

Section NoBacktracking.
Context {F D : Type} {sc : Scalar D} {pr : Precision F D}
        {fw : WarpForward F D} {vm : vtkMath F D}
        {so : ScalarOrder D} {lt : ScalarLeTrans D}.

Lemma accepted_full_step point (k : nat) :
  (errorSquared (full_step_state point (iterate point k))
     >? errorSquared (iterate point k))%S = false ->
  iterate point (S k) = full_step_state point (iterate point k).
Proof.
  intros Hfull.
  change (iterate point (S k)) with (newton_step point (iterate point k)).
  unfold newton_step. unfold full_step_state in Hfull. now rewrite Hfull.
Qed.

(** X11.  In a call none of whose iterations enters the backtracking
    branch, C3 and C4 hold as stated: the recorded errors never increase,
    and the returned point is the candidate with the smallest recorded
    error.  The comparison is assumed transitive, as it is in exact
    arithmetic. *)
Theorem full_steps_keep_the_best_candidate (t : vtkWarpTransform D)
  (point : Vec3 D) :
  (forall k : nat,
     Z.of_nat k < iterations t point ->
     (errorSquared (full_step_state point (iterate point k))
        >? errorSquared (iterate point k))%S = false) ->
  errors_never_increase t point /\ returns_best_candidate t point.
Proof.
  intros Hfull.
  assert (Hstep : forall k, Z.of_nat (S k) <= iterations t point ->
            (errorSquared (iterate point (S k))
               >? errorSquared (iterate point k))%S = false).
  { intros k Hk. rewrite accepted_full_step; apply Hfull; lia. }
  split; [exact Hstep|].
  intros in_place k Hk.
  split; [apply value_of_InverseTransformPoint|].
  rewrite final_state_iterate.
  assert (Hchain : forall j, (k <= j)%nat ->
            Z.of_nat j <= iterations t point ->
            (errorSquared (iterate point j)
               >? errorSquared (iterate point k))%S = false).
  { induction j as [|j IH]; intros Hkj Hj.
    - assert (k = O) as -> by lia. apply sltb_irrefl.
    - destruct (Nat.eq_dec k (S j)) as [->|Hne]; [apply sltb_irrefl|].
      apply (not_gt_trans _ (errorSquared (iterate point j))).
      + apply Hstep. exact Hj.
      + apply IH; lia. }
  pose proof (iterations_bounds t point) as Hb.
  apply Hchain; lia.
Qed.

End NoBacktracking.

(* ================================================================== *)
(** ** Further properties in binary64 *)

Lemma nan_is_not_greater (a b : double) :
  is_nan64 a = true -> (a >? b)%S = false.
Proof.
  destruct a as [[ | | | ]]; try discriminate. intros _.
  destruct b as [[ | | | ]]; reflexivity.
Qed.

Lemma nothing_is_greater_than_nan (a b : double) :
  is_nan64 b = true -> (a >? b)%S = false.
Proof.
  destruct b as [[ | | | ]]; try discriminate. intros _. reflexivity.
Qed.

Lemma nan_squared (a : double) :
  is_nan64 a = true -> is_nan64 (a * a)%S = true.
Proof. destruct a as [[ | | | ]]; try discriminate. reflexivity. Qed.

(** X12.  A NaN ends a call as if it had converged.  If the squared error
    recorded after some iteration before the budget is a NaN, the loop
    stops there at the latest and no warning is emitted; if the tolerance is
    a NaN and the budget is positive, the call returns the seed without an
    iteration and without a warning. *)
Theorem nan_ends_the_call_silently {fw : WarpForward float double}
  {vm : vtkMath float double} (in_place : bool) (point : Vec3 double)
  (t : vtkWarpTransform double) :
  let evs := events_of (InverseTransformPoint in_place point) t in
  (forall k : nat,
     Z.of_nat k < InverseIterations t ->
     is_nan64 (errorSquared (iterate point k)) = true ->
     iterations t point <= Z.of_nat k /\ filter is_warning evs = []) /\
  (0 < InverseIterations t ->
   is_nan64 (InverseTolerance t) = true ->
   iterations t point = 0 /\
   value_of (InverseTransformPoint in_place point) t
   = first_guess point (ForwardTransformPoint point) /\
   filter is_warning evs = []).
Proof.
  intros evs.
  assert (Hquiet : forall k : nat,
            Z.of_nat k < InverseIterations t ->
            (errorSquared (iterate point k) >? toleranceSquared t)%S = false ->
            iterations t point <= Z.of_nat k /\ filter is_warning evs = []).
  { intros k Hk Htol.
    pose proof (iterations_le_first_within_tolerance t point k Htol) as Hle.
    split; [exact Hle|].
    unfold evs. rewrite warnings_of_InverseTransformPoint.
    destruct (Z.geb_spec (iterations t point) (InverseIterations t));
      [lia | reflexivity]. }
  split.
  - intros k Hk Hnan. apply (Hquiet k Hk). now apply nan_is_not_greater.
  - intros Hn Hnan.
    assert (Htol : (errorSquared (iterate point 0) >? toleranceSquared t)%S
                   = false).
    { apply nothing_is_greater_than_nan. now apply nan_squared. }
    destruct (Hquiet O Hn Htol) as [_ Hw].
    destruct (no_iteration_when_seed_within_tolerance t point Htol)
      as (Hi & Hs & _).
    split; [exact Hi|]. split; [|exact Hw].
    now rewrite value_of_InverseTransformPoint, Hs.
Qed.

(** X13.  A fixed point of the forward transform with finite coordinates is
    returned as its own inverse, bit for bit and without an iteration,
    whatever the tolerance and the budget are. *)
Theorem fixed_point_is_its_own_inverse {fw : WarpForward float double}
  {vm : vtkMath float double} (in_place : bool) (point : Vec3 double)
  (w : World float double) :
  ForwardTransformPoint point = point ->
  fst (ForwardTransformDerivative point) = point ->
  finite64_point point = true ->
  fst (InverseTransformPoint in_place point w) = point /\
  iterations (self w) point = 0.
Proof.
  intros Hpoint Hderiv Hfin.
  assert (Hseed : seed point = point).
  { unfold seed. rewrite Hpoint. now apply double_reflect_fixed. }
  assert (H0 : iterate point 0
               = mkIter point (vsub point point)
                        (snd (ForwardTransformDerivative point))
                        (double_of_Z 0)).
  { unfold iterate; cbn [Nat.iter]. rewrite Hseed.
    unfold state_at, candidate_state. rewrite Hderiv.
    now rewrite double_zero_error. }
  destruct (no_iteration_when_seed_within_tolerance (self w) point)
    as (Hi & Hs & _).
  { rewrite H0. apply double_square_not_negative. }
  split; [|exact Hi].
  rewrite InverseTransformPoint_run. cbn [fst].
  now rewrite Hs, H0.
Qed.

(* ================================================================== *)
(** ** The further laws in exact arithmetic *)

Lemma Qc_ltb_false (x y : Qc) : Qc_ltb x y = false <-> (y <= x)%Qc.
Proof.
  unfold Qc_ltb. destruct (x ?= y)%Qc eqn:Hc; split; intros H;
    try reflexivity; try discriminate.
  - apply Qceq_alt in Hc. subst. apply Qcle_refl.
  - apply Qclt_alt in Hc. exfalso. revert Hc. now apply Qcle_not_lt.
  - apply Qcgt_alt in Hc. now apply Qclt_le_weak.
Qed.

#[export] Instance Qc_ScalarLeTrans : ScalarLeTrans Qc.
Proof.
  split. intros a b c Hab Hbc. apply Qc_ltb_false.
  apply Qc_ltb_false in Hab, Hbc. now apply Qcle_trans with b.
Qed.

Lemma Qc_sum_squares_nonneg (a b c : Qc) :
  Qc_ltb (a * a + b * b + c * c) (Q2Qc 0) = false.
Proof.
  apply Qc_ltb_false.
  pose proof (proj1 (Qc_ltb_false _ _) (Qc_square_nonneg a)) as Ha.
  pose proof (proj1 (Qc_ltb_false _ _) (Qc_square_nonneg b)) as Hb.
  pose proof (proj1 (Qc_ltb_false _ _) (Qc_square_nonneg c)) as Hc.
  replace (Q2Qc 0) with (Q2Qc 0 + Q2Qc 0 + Q2Qc 0)%Qc by ring.
  repeat apply Qcplus_le_compat; assumption.
Qed.

#[export] Instance Qc_ExactOrder : ExactOrder Qc (ex := Qc_ExactScalar).
Proof. split. exact Qc_sum_squares_nonneg. Qed.

(* ================================================================== *)
(** ** Concrete runs for the further properties *)

(** The witness of X2: the cubic warp with a budget of zero. *)
Lemma cubic_zero_budget :
  let t : vtkWarpTransform double := with_budget 0 in
  let P : Vec3 double := point_of 1 0 0 in
  InverseTransformPoint (fw := cubic64) (vm := math64) false P
    (fresh (F := float) t)
  = (point_of 0 0 0,
     mkWorld t [EvForwardPoint P; EvForwardDerivative (point_of 0 0 0);
                EvDebug 1; EvWarning P (double_lit 4 1) 0]).
Proof.
  intros t P.
  rewrite (nonpositive_budget_returns_seed (fw := cubic64) (vm := math64)
             false P (fresh (F := float) t)).
  - vm_compute. reflexivity.
  - vm_compute. discriminate.
Defined.

(** The witness of X3: a new object, and the same object after
    [Inverse()]. *)
Lemma cubic_solver_in_both_modes :
  let t : vtkWarpTransform double := vtkWarpTransform_new in
  let t' : vtkWarpTransform double :=
    self (snd (Inverse (fresh (F := float) t))) in
  let P : Vec3 double := point_of 1 0 0 in
  mode t = Forward /\ mode t' = InverseMode /\
  value_of (F := float)
    (InverseTransformPoint (fw := cubic64) (vm := math64) false P) t
  = value_of (F := float)
      (InverseTransformPoint (fw := cubic64) (vm := math64) false P) t'.
Proof.
  intros t t' P. split; [reflexivity|]. split; [reflexivity|].
  destruct (inverse_solver_ignores_mode (F := float) (fw := cubic64)
              (vm := math64) t t' eq_refl eq_refl) as [Hd _].
  exact (proj1 (Hd false P)).
Defined.

(** The witness of X5: the translation by [(1,2,3)]. *)
Lemma translation_exact_run :
  let P : Vec3 Qc := point_of 5 5 5 in
  let w : World Qc Qc := fresh vtkWarpTransform_new in
  fst (InverseTransformPoint (fw := translateQ) (vm := mathQ) false P w)
  = vsub P (point_of 1 2 3) /\
  iterations (F := Qc) (fw := translateQ) (vm := mathQ) (self w) P = 0.
Proof.
  intros P w.
  destruct (translation_is_inverted_by_the_seed
              (F := Qc) (fw := translateQ) (vm := mathQ)
              (ex := Qc_ExactScalar) (point_of 1 2 3)
              (fun p => eq_refl) (fun p => eq_refl) false P w)
    as (H1 & H2 & _).
  split; [exact H1 | exact H2].
Defined.

(** The scale [X -> 2X] is affine, and Cramer's rule solves the systems of
    its matrix. *)
Lemma scaleQ_affine (p : Vec3 Qc) :
  ForwardTransformDerivative (WarpForward := scaleQ) p
  = (vadd (matvec (diag3 (of_Z 2) (of_Z 2) (of_Z 2)) p) (point_of 0 0 0),
     diag3 (of_Z 2) (of_Z 2) (of_Z 2)).
Proof.
  destruct p as [a b c]. cbn.
  unfold scale2_derivative, scale2_point, vadd, matvec, dot, diag3, point_of.
  cbn [c0 c1 c2]. f_equal.
  change (of_Z 0) with (Q2Qc 0). change (of_Z 2) with (Q2Qc 2).
  cbn [sadd smul Qc_Scalar]. f_equal; ring.
Qed.

Lemma cramer_solves_scaleQ (rhs : Vec3 Qc) :
  matvec (diag3 (of_Z 2) (of_Z 2) (of_Z 2))
         (LinearSolve3x3 (vtkMath := mathQ)
            (diag3 (of_Z 2) (of_Z 2) (of_Z 2)) rhs)
  = rhs.
Proof.
  destruct rhs as [a b c]. cbn [LinearSolve3x3 mathQ generic_math].
  unfold cramer_solve, det3, replace_column, matvec, dot, diag3.
  cbn [c0 c1 c2].
  change (of_Z 0) with (Q2Qc 0). change (of_Z 2) with (Q2Qc 2).
  cbn [sadd smul ssub sdiv Qc_Scalar].
  f_equal; field; discriminate.
Qed.

(** The witness of X6: the scale [X -> 2X] at the target [(4,2,6)]. *)
Lemma scale_exact_run :
  let P : Vec3 Qc := point_of 4 2 6 in
  let t : vtkWarpTransform Qc := vtkWarpTransform_new in
  iterations (F := Qc) (fw := scaleQ) (vm := mathQ) t P <= 1 /\
  (errorSquared (final_state (F := Qc) (fw := scaleQ) (vm := mathQ) t P)
     >? toleranceSquared t)%S = false.
Proof.
  intros P t.
  destruct (affine_warp_takes_one_iteration
              (F := Qc) (fw := scaleQ) (vm := mathQ) (ex := Qc_ExactScalar)
              (diag3 (of_Z 2) (of_Z 2) (of_Z 2)) (point_of 0 0 0)
              scaleQ_affine cramer_solves_scaleQ false P (fresh t))
    as (H1 & _ & H3).
  split; [exact H1|]. apply H3. reflexivity.
Defined.

(** The witness of X9: the cubic warp with a budget of two, called with
    [float] arguments.  The warning names [(1/2, 0, 0)], the result, where
    the target was [(1, 0, 0)]. *)
Lemma cubic_float_warning :
  let t : vtkWarpTransform double := with_budget 2 in
  let input : Vec3 float := point_of 1 0 0 in
  filter is_warning
    (events_of (InverseTransformPoint_float (fw := cubic64) (vm := math64)
                  input) t)
  = [EvWarning (mkVec3 (double_lit 1 2) (of_Z 0) (of_Z 0))
               (double_lit 81 64) 2].
Proof.
  intros t input.
  destruct (float_warning_reports_the_result
              (fw := cubic64) (vm := math64) input t) as (Hw & _).
  - vm_compute. discriminate.
  - rewrite Hw. vm_compute. reflexivity.
Defined.

(** The witness of X11: the scale [X -> 2X] in exact arithmetic, whose one
    iteration takes the full step. *)
Lemma scale_keeps_the_best_candidate :
  let P : Vec3 Qc := point_of 4 2 6 in
  let t : vtkWarpTransform Qc := vtkWarpTransform_new in
  errors_never_increase (F := Qc) (fw := scaleQ) (vm := mathQ) t P /\
  returns_best_candidate (F := Qc) (fw := scaleQ) (vm := mathQ) t P.
Proof.
  intros P t.
  apply (full_steps_keep_the_best_candidate
           (F := Qc) (fw := scaleQ) (vm := mathQ) t P).
  intros k Hk.
  assert (Hi : iterations (F := Qc) (fw := scaleQ) (vm := mathQ) t P = 1)
    by (vm_compute; reflexivity).
  rewrite Hi in Hk. assert (k = O) as -> by lia.
  vm_compute. reflexivity.
Defined.

(** The witness of X12: the warp [(x, y, z) -> (x^2, y, z)] at the target
    [(2,0,0)].  The seed is the origin, where the Jacobian is singular;
    with the solver by Cramer's rule the first step divides by zero, the
    next error is a NaN, and the call returns [(inf, NaN, NaN)] after one
    iteration of 500 without a warning. *)
Lemma singular_jacobian_ends_silently :
  let t : vtkWarpTransform double := vtkWarpTransform_new in
  let P : Vec3 double := point_of 2 0 0 in
  is_nan64 (errorSquared (iterate (fw := square64) (vm := math64) P 1))
  = true /\
  iterations (F := float) (fw := square64) (vm := math64) t P <= 1 /\
  filter is_warning
    (events_of (F := float)
       (InverseTransformPoint (fw := square64) (vm := math64) false P) t)
  = [].
Proof.
  intros t P.
  assert (Hnan : is_nan64 (errorSquared
                             (iterate (fw := square64) (vm := math64) P 1))
                 = true) by (vm_compute; reflexivity).
  split; [exact Hnan|].
  destruct (nan_ends_the_call_silently (fw := square64) (vm := math64)
              false P t) as [Herr _].
  apply (Herr 1%nat); [vm_compute; reflexivity | exact Hnan].
Defined.

(** The witness of X13: the origin is a fixed point of the scale. *)
Lemma scale_origin_is_fixed :
  let P : Vec3 double := point_of 0 0 0 in
  fst (InverseTransformPoint (fw := scale64) (vm := math64) false P
         (fresh (F := float) (with_budget 0))) = P.
Proof.
  intros P.
  apply (fixed_point_is_its_own_inverse (fw := scale64) (vm := math64)
           false P (fresh (with_budget 0))); vm_compute; reflexivity.
Defined.
